(** * OrbitWatch: orbital geometry and scheduling core

    A shallow embedding of the algorithmic core of the OrbitWatch client
    ([src/js/app.js], [src/js/predictions.js]) and the proofs of the
    properties its specification states about it.

    Conventions of the embedding:
    - JavaScript numbers that carry degrees (latitude, longitude, elevation,
      azimuth) are rationals ([Q]): the code only compares, subtracts and
      copies them, and the comparisons are the exact ones;
    - timestamps (milliseconds) are integers ([Z]);
    - arrays are lists, [push] appends at the end, [shift] drops the head;
    - an access the JavaScript runtime would answer with a [TypeError]
      (a field of [undefined] or [null]) yields no result. *)

From Stdlib Require Import List ZArith QArith Qabs Qround Qminmax Qfield Lia Lqa Bool Sorted.
From Stdlib Require String Ascii.
Import ListNotations.

Open Scope Z_scope.

(** ** Numeric comparisons of the source, as boolean tests on [Q] *)

(** [x >= y] *)
Definition Qgeb (x y : Q) : bool := Qle_bool y x.

(** [x > y] *)
Definition Qgtb (x y : Q) : bool := negb (Qle_bool x y).

(** * Part I: definitions *)

(** ** Orbit trail ([addTrailPoint], app.js) *)

Module Trail.

(** A trail entry is the two-element array [[lat, lng]]. *)
Definition Point : Type := (Q * Q)%type.

Definition lat (p : Point) : Q := fst p.
Definition lng (p : Point) : Q := snd p.

(** [{ coords: currentSeg }] *)
Record Segment : Type := { coords : list Point }.

(** What the trail code touches of the globe object: the paths handed to
    [pathsData]. *)
Record Globe : Type := { pathsData : list Segment }.

(** The part of [state] the trail code reads and writes. *)
Record State : Type := {
  globe : option Globe;
  trailPoints : list Point
}.

(** [CONFIG.TRAIL_MAX] *)
Definition TRAIL_MAX : nat := 60.

(** [Math.abs(currLng - prevLng) > 180] *)
Definition crossing (prevLng currLng : Q) : bool :=
  Qgtb (Qabs (currLng - prevLng)) (180 # 1).

(** The loop state of the segmentation: [segments] and [currentSeg]. *)
Definition SegAcc : Type := (list Segment * list Point)%type.

(** One iteration of
    [for (let i = 1; i < state.trailPoints.length; i++)]. *)
Definition segStep (tp : list Point) (acc : option SegAcc) (i : nat)
  : option SegAcc :=
  match acc with
  | None => None
  | Some (segments, currentSeg) =>
      match nth_error tp (i - 1), nth_error tp i with
      | Some prev, Some curr =>
          let '(segments, currentSeg) :=
            if crossing (lng prev) (lng curr)
            then (segments ++ [{| coords := currentSeg |}], [])
            else (segments, currentSeg) in
          Some (segments, currentSeg ++ [curr])
      | _, _ => None
      end
  end.

(** The body of the [if (state.globe && length >= 2)] block: the segments
    handed to [pathsData]. The block is entered with two points or more; a
    buffer with no first point yields no result here. *)
Definition splitTrail (tp : list Point) : option (list Segment) :=
  match nth_error tp 0 with
  | None => None
  | Some p0 =>
      match fold_left (segStep tp) (seq 1 (length tp - 1)) (Some ([], [p0])) with
      | Some (segments, currentSeg) =>
          Some (segments ++ [{| coords := currentSeg |}])
      | None => None
      end
  end.

(** [addTrailPoint(lat, lng)] *)
Definition addTrailPoint (lat lng : Q) (st : State) : option State :=
  let tp := trailPoints st ++ [(lat, lng)] in
  let tp := if (TRAIL_MAX <? length tp)%nat then tl tp else tp in
  match globe st with
  | Some g =>
      if (2 <=? length tp)%nat then
        match splitTrail tp with
        | Some segments =>
            Some {| globe := Some {| pathsData := segments |};
                    trailPoints := tp |}
        | None => None
        end
      else Some {| globe := Some g; trailPoints := tp |}
  | None => Some {| globe := None; trailPoints := tp |}
  end.

(** A run of the polling driver: one [addTrailPoint] per position fix. *)
Fixpoint addTrailPoints (pts : list Point) (st : State) : option State :=
  match pts with
  | [] => Some st
  | p :: rest =>
      match addTrailPoint (lat p) (lng p) st with
      | Some st' => addTrailPoints rest st'
      | None => None
      end
  end.

(** The state the module starts in: [trailPoints: []]. *)
Definition initial (g : option Globe) : State :=
  {| globe := g; trailPoints := [] |}.

(** The same traversal by recursion on the buffer, [prev] being
    [trailPoints[i - 1]]; used to reason about [splitTrail]. *)
Fixpoint walk (prev : Point) (rest : list Point) (segments : list Segment)
         (currentSeg : list Point) : SegAcc :=
  match rest with
  | [] => (segments, currentSeg)
  | curr :: rest' =>
      if crossing (lng prev) (lng curr)
      then walk curr rest' (segments ++ [{| coords := currentSeg |}]) [curr]
      else walk curr rest' segments (currentSeg ++ [curr])
  end.

(** The position sequence of the end-to-end scenario of the
    specification, as [[lat, lng]] pairs. *)
Definition scenario : list Point :=
  [(10 # 1, 170 # 1); (10 # 1, 175 # 1); (10 # 1, -179 # 1); (10 # 1, -175 # 1)]%Q.

(** No antimeridian crossing between consecutive points of [l]. *)
Definition smooth (l : list Point) : Prop :=
  forall i p q,
    nth_error l i = Some p -> nth_error l (S i) = Some q ->
    (Qabs (lng q - lng p) <= 180 # 1)%Q.

End Trail.

(** ** The runtime's [Date], as far as the code uses it

    Time values are milliseconds. Local time is taken at a fixed offset from
    UTC, so that local time values can stand for the dates: comparisons and
    differences of dates are those of their local time values. The
    definitions follow the day-number and year-number algorithms of the
    language standard. *)

Module JsDate.

Definition msPerDay : Z := 86400000.

(** [Day(t)] *)
Definition Day (t : Z) : Z := t / msPerDay.

(** [InLeapYear(y)], from [DaysInYear]. *)
Definition inLeapYear (y : Z) : bool :=
  ((y mod 4 =? 0) && negb (y mod 100 =? 0)) || (y mod 400 =? 0).

Definition DaysInYear (y : Z) : Z := if inLeapYear y then 366 else 365.

(** [DayFromYear(y)]: the day number of the first day of year [y]. *)
Definition DayFromYear (y : Z) : Z :=
  365 * (y - 1970) + (y - 1969) / 4 - (y - 1901) / 100 + (y - 1601) / 400.

(** [YearFromTime], on day numbers: the year [y] with
    [DayFromYear y <= day < DayFromYear (y + 1)], found from an estimate
    that is off by one year at most. *)
Definition yearFromDay (day : Z) : Z :=
  let y := 1970 + (day * 10000) / 3652425 in
  if day <? DayFromYear y then y - 1
  else if DayFromYear (y + 1) <=? day then y + 1
  else y.

(** The day within the year of the first day of month [m] (0 to 11). *)
Definition monthStart (leap : bool) (m : Z) : Z :=
  let l := if leap then 1 else 0 in
  if m <=? 0 then 0
  else if m =? 1 then 31
  else if m =? 2 then 59 + l
  else if m =? 3 then 90 + l
  else if m =? 4 then 120 + l
  else if m =? 5 then 151 + l
  else if m =? 6 then 181 + l
  else if m =? 7 then 212 + l
  else if m =? 8 then 243 + l
  else if m =? 9 then 273 + l
  else if m =? 10 then 304 + l
  else 334 + l.

(** [MonthFromTime], from the day within the year. *)
Definition monthFromDayInYear (leap : bool) (d : Z) : Z :=
  if d <? monthStart leap 1 then 0
  else if d <? monthStart leap 2 then 1
  else if d <? monthStart leap 3 then 2
  else if d <? monthStart leap 4 then 3
  else if d <? monthStart leap 5 then 4
  else if d <? monthStart leap 6 then 5
  else if d <? monthStart leap 7 then 6
  else if d <? monthStart leap 8 then 7
  else if d <? monthStart leap 9 then 8
  else if d <? monthStart leap 10 then 9
  else if d <? monthStart leap 11 then 10
  else 11.

(** [MakeDay(year, month, date)] *)
Definition MakeDay (year month date : Z) : Z :=
  let ym := year + month / 12 in
  let mn := month mod 12 in
  DayFromYear ym + monthStart (inLeapYear ym) mn + date - 1.

(** [new Date(year, monthIndex, day)]: local midnight of that day; a year
    from 0 to 99 is read as 1900 + year. *)
Definition newDate (year monthIndex day : Z) : Z :=
  let yr := if (0 <=? year) && (year <=? 99) then 1900 + year else year in
  msPerDay * MakeDay yr monthIndex day.

(** [getFullYear()] *)
Definition getFullYear (t : Z) : Z := yearFromDay (Day t).

(** [getMonth()] *)
Definition getMonth (t : Z) : Z :=
  let y := yearFromDay (Day t) in
  monthFromDayInYear (inLeapYear y) (Day t - DayFromYear y).

(** [new Date(+dt).setUTCHours(0, 0, 0, 0)]: the time value of the start of
    the UTC day of the time value [dt]. *)
Definition setUTCHours0 (dt : Z) : Z := msPerDay * Day dt.

End JsDate.

(** ** Sun position ([getSunPosition], app.js) *)

Module Sun.

Section WithSolarCalculator.

(** The functions of solar-calculator the code calls, as black boxes. *)
Variable century : Z -> Q.
Variable equationOfTime : Q -> Q.
Variable declination : Q -> Q.

(** [getSunPosition(dt)]: the array [[longitude, declination]]. *)
Definition getSunPosition (dt : Z) : Q * Q :=
  let day := JsDate.setUTCHours0 dt in
  let t := century dt in
  let longitude := (inject_Z (day - dt) / (86400000 # 1) * (360 # 1) - (180 # 1))%Q in
  ((longitude - equationOfTime t / (4 # 1))%Q, declination t).

(** The specification's formula for the longitude, given the start
    [dayStartUTC] of the UTC day and the century fraction [T]. *)
Definition specLongitude (dayStartUTC timestamp : Z) (T : Q) : Q :=
  (inject_Z (dayStartUTC - timestamp) / (86400000 # 1) * (360 # 1) - (180 # 1)
   - equationOfTime T / (4 # 1))%Q.

End WithSolarCalculator.

(** [d] is [timestamp] truncated to UTC midnight: the last instant at or
    before [timestamp] that is a whole number of days from the epoch. *)
Definition truncatedToUTCMidnight (d timestamp : Z) : Prop :=
  (exists n, d = n * 86400000) /\ d <= timestamp < d + 86400000.

End Sun.

(** ** Pass prediction ([computePasses], predictions.js) *)

Module Passes.

(** [MIN_ELEVATION_DEG]: minimum pass elevation to consider visible. *)
Definition MIN_ELEVATION_DEG : Q := 10 # 1.

(** [stepMs]: 10-second steps. *)
Definition stepMs : Z := 10000.

(** The length of the sampling window, [48 * 60 * 60 * 1000]. *)
Definition windowMs : Z := 48 * 60 * 60 * 1000.

(** The object [currentPass], copied into [passes] when the pass closes.
    Dates are their millisecond timestamps ([end] is a keyword here). *)
Record Pass : Type := {
  start : Z;
  startAz : Q;
  maxEl : Q;
  maxElTime : Z;
  end_ : Z;
  endAz : Q
}.

(** [observerGd] *)
Record ObserverGd : Type := {
  longitude : Q;
  latitude : Q;
  height : Q
}.

(** The look angles of one sample, in degrees: [elDeg] and [azDeg]. *)
Record Look : Type := { elDeg : Q; azDeg : Q }.

(** The variables of the sampling loop; [maxEl_run] is the local [maxEl]. *)
Record LoopState : Type := {
  inPass : bool;
  currentPass : option Pass;
  maxEl_run : Q;
  passes : list Pass
}.

(** How one iteration ends: at the bottom of the body or a [continue], at
    the [break], or on a field access of [null]. *)
Inductive Step : Type :=
| Continue (st : LoopState)
| Break (st : LoopState)
| Fault.

(** How a call ends. [OutOfFuel] belongs to the model alone: the loop is
    run with a bound on its iterations. *)
Inductive Outcome : Type :=
| Returned (ps : list Pass)
| TypeError
| OutOfFuel.

Section WithSatelliteJs.

(** The functions of satellite.js the loop calls, as black boxes:
    [propagate] is [satellite.propagate(satrec, date).position], absent
    when the propagation yields no position; [lookAt] is the chain
    [gstime], [eciToEcf], [ecfToLookAngles] and [radiansToDegrees]. *)
Variables satrec position : Type.
Variable degreesToRadians : Q -> Q.
Variable propagate : satrec -> Z -> option position.
Variable lookAt : ObserverGd -> position -> Z -> Look.

(** The body of the [for] loop at the sample time [t]. *)
Definition sample (sat : satrec) (observerGd : ObserverGd) (t : Z)
           (st : LoopState) : Step :=
  match propagate sat t with
  | None => Continue st
  | Some pos =>
      let elDeg := elDeg (lookAt observerGd pos t) in
      let azDeg := azDeg (lookAt observerGd pos t) in
      if Qgeb elDeg MIN_ELEVATION_DEG then
        let st :=
          if negb (inPass st) then
            {| inPass := true;
               currentPass := Some {| start := t; startAz := azDeg;
                                      maxEl := elDeg; maxElTime := t;
                                      end_ := t; endAz := azDeg |};
               maxEl_run := elDeg;
               passes := passes st |}
          else st in
        match currentPass st with
        | None => Fault
        | Some cp =>
            let '(m, cp) :=
              if Qgtb elDeg (maxEl_run st) then
                (elDeg,
                 {| start := start cp; startAz := startAz cp;
                    maxEl := elDeg; maxElTime := t;
                    end_ := end_ cp; endAz := endAz cp |})
              else (maxEl_run st, cp) in
            Continue
              {| inPass := inPass st;
                 currentPass := Some {| start := start cp; startAz := startAz cp;
                                        maxEl := maxEl cp; maxElTime := maxElTime cp;
                                        end_ := t; endAz := azDeg |};
                 maxEl_run := m;
                 passes := passes st |}
        end
      else if inPass st then
        match currentPass st with
        | None =>
            (* [inPass] with no current pass does not occur (see
               [sampling_total]); the runtime would push an empty
               object there. *)
            Fault
        | Some cp =>
            let st := {| inPass := false;
                         currentPass := None;
                         maxEl_run := 0;
                         passes := passes st ++ [cp] |} in
            if (5 <=? length (passes st))%nat then Break st else Continue st
        end
      else Continue st
  end.

(** [for (let t = now.getTime(); t < end.getTime(); t += stepMs)],
    followed by [return passes]. *)
Fixpoint sampling (fuel : nat) (sat : satrec) (observerGd : ObserverGd)
         (t endT : Z) (st : LoopState) : Outcome :=
  match fuel with
  | O => OutOfFuel
  | S fuel' =>
      if t <? endT then
        match sample sat observerGd t st with
        | Continue st' => sampling fuel' sat observerGd (t + stepMs) endT st'
        | Break st' => Returned (passes st')
        | Fault => TypeError
        end
      else Returned (passes st)
  end.

(** The loop variables before the first sample. *)
Definition loopStart : LoopState :=
  {| inPass := false; currentPass := None; maxEl_run := 0; passes := [] |}.

(** More iterations than the window has samples. *)
Definition fuelOfWindow : nat := S (Z.to_nat (windowMs / stepMs)).

(** The object literal bound to [observerGd]. *)
Definition observerGdOf (observerLat observerLng observerAlt : Q)
  : ObserverGd :=
  {| longitude := degreesToRadians observerLng;
     latitude := degreesToRadians observerLat;
     height := observerAlt |}.

(** [computePasses(observerLat, observerLng, observerAlt)], with the
    module variable [tleData] and the clock reading [now] as arguments. *)
Definition computePasses (tleData : option satrec) (now : Z)
           (observerLat observerLng observerAlt : Q) : Outcome :=
  match tleData with
  | None => Returned []
  | Some sat =>
      let endT := now + windowMs in
      let observerGd := observerGdOf observerLat observerLng observerAlt in
      sampling fuelOfWindow sat observerGd now endT loopStart
  end.

(** The elevation the loop reads at time [t], when there is one. *)
Definition elevationAt (sat : satrec) (observerGd : ObserverGd) (t : Z)
  : option Q :=
  option_map (fun pos => elDeg (lookAt observerGd pos t)) (propagate sat t).

End WithSatelliteJs.

(** The time of the [k]-th sample of a window that starts at [now]. *)
Definition sampleTime (now k : Z) : Z := now + stepMs * k.

(** The number of samples of the window. *)
Definition sampleCount : Z := windowMs / stepMs.

(** A pass is well formed when its culmination lies between its start and
    its end and reaches the minimum elevation. *)
Definition wellFormed (p : Pass) : Prop :=
  start p <= maxElTime p /\ maxElTime p <= end_ p
  /\ (MIN_ELEVATION_DEG <= maxEl p)%Q.

(** What the loop maintains before the sample at time [t]: fewer than five
    closed passes, each well formed and ended before [t], in time order
    and apart from one another; and a current pass exactly when [inPass],
    well formed, ended before [t] and begun after every closed pass. *)
Definition loopInvariant (t : Z) (st : LoopState) : Prop :=
  (length (passes st) < 5)%nat
  /\ Forall (fun p => wellFormed p /\ end_ p < t) (passes st)
  /\ StronglySorted (fun p q => end_ p < start q) (passes st)
  /\ match currentPass st with
     | Some cp =>
         inPass st = true /\ wellFormed cp /\ end_ cp < t
         /\ Forall (fun p => end_ p < start cp) (passes st)
     | None => inPass st = false
     end.

(** What holds of the list returned. *)
Definition resultInvariant (ps : list Pass) : Prop :=
  (length ps <= 5)%nat
  /\ Forall wellFormed ps
  /\ StronglySorted (fun p q => end_ p < start q) ps.

(** [cp] culminates over the samples of indices [a] to [b]: its maximum
    elevation is read at one of them, at the time recorded, and no
    elevation read at any of them exceeds it. *)
Definition culminates (elevation : Z -> option Q) (now a b : Z) (cp : Pass)
  : Prop :=
  (exists i, a <= i <= b
             /\ elevation (sampleTime now i) = Some (maxEl cp)
             /\ maxElTime cp = sampleTime now i)
  /\ (forall i e, a <= i <= b ->
                  elevation (sampleTime now i) = Some e -> (e <= maxEl cp)%Q).

(** The pass that covers the samples of indices [a] to [b]. *)
Definition coversRun (elevation : Z -> option Q) (now a b : Z) (cp : Pass)
  : Prop :=
  start cp = sampleTime now a /\ end_ cp = sampleTime now b
  /\ culminates elevation now a b cp.

(** The loop variables before the sample of index [k], when the samples
    at or above the minimum elevation are those of indices [a] to [b]. *)
Definition singleRunInvariant (elevation : Z -> option Q) (now a b : Z)
           (t : Z) (st : LoopState) : Prop :=
  exists k,
    0 <= k /\ t = sampleTime now k
    /\ ((k <= a /\ st = {| inPass := false; currentPass := None;
                           maxEl_run := 0; passes := [] |})
        \/ (a < k <= b + 1
            /\ exists cp,
                 st = {| inPass := true; currentPass := Some cp;
                         maxEl_run := maxEl cp; passes := [] |}
                 /\ coversRun elevation now a (k - 1) cp)
        \/ (b + 1 < k
            /\ exists cp,
                 st = {| inPass := false; currentPass := None;
                         maxEl_run := 0; passes := [cp] |}
                 /\ coversRun elevation now a b cp)).

(** The length of the visibility interval of the single-pass property:
    300 seconds. *)
Definition visibleMs : Z := 300 * 1000.

(** A synthetic elevation profile with a single visibility interval: every
    sample of the window has an elevation, and the elevation is at or above
    the minimum exactly at the samples taken from [s] to [s + visibleMs]. *)
Definition visibleExactlyFrom (elevation : Z -> option Q) (now s : Z) : Prop :=
  forall k,
    0 <= k < sampleCount ->
    exists e,
      elevation (sampleTime now k) = Some e
      /\ ((MIN_ELEVATION_DEG <= e)%Q
          <-> s <= sampleTime now k <= s + visibleMs).

(** Synthetic propagation: the position is the elevation itself. *)
Definition lookOfElevation (_ : ObserverGd) (el : Q) (_ : Z) : Look :=
  {| elDeg := el; azDeg := 0 |}.

(** A profile at 40 degrees from 600 s to 900 s after the start of the
    window, 80 degrees at 750 s, and on the horizon otherwise. *)
Definition midProfile (_ : unit) (t : Z) : option Q :=
  Some (if (600000 <=? t) && (t <=? 900000)
        then if t =? 750000 then 80 # 1 else 40 # 1
        else 0 # 1)%Q.

(** A profile at 45 degrees over the last 300 s sampled of a window that
    starts at 0 (the last sample is taken at 172790 s), and on the horizon
    before. *)
Definition lateProfile (_ : unit) (t : Z) : option Q :=
  Some (if (172490000 <=? t) && (t <=? 172790000) then 45 # 1 else 0 # 1)%Q.

(** A profile that is at 30 degrees every other 100 seconds: more than five
    visibility intervals in the window. *)
Definition waveProfile (_ : unit) (t : Z) : option Q :=
  Some (if (t / 100000) mod 2 =? 1 then 30 # 1 else 0 # 1)%Q.

(** The start and the end of the passes returned. *)
Definition spans (o : Outcome) : list (Z * Z) :=
  match o with
  | Returned ps => map (fun p => (start p, end_ p)) ps
  | TypeError | OutOfFuel => []
  end.

Arguments sample {satrec position} propagate lookAt sat observerGd t st.
Arguments sampling {satrec position} propagate lookAt fuel sat observerGd t endT st.
Arguments computePasses {satrec position} degreesToRadians propagate lookAt
  tleData now observerLat observerLng observerAlt.
Arguments elevationAt {satrec position} propagate lookAt sat observerGd t.

End Passes.

(** ** Meteor shower calendar ([getActiveAndUpcomingShowers], predictions.js) *)

Module Showers.
Import Stdlib.Strings.String Stdlib.Strings.Ascii.

(** A row of [METEOR_SHOWERS]; [peak], [start] and [end] are month-day
    strings ([end] is a keyword here). *)
Record Shower : Type := {
  name : String.string;
  peak : String.string;
  start : String.string;
  end_ : String.string;
  rate : Z;
  parent : String.string
}.

(** The first row: the shower that spans the year boundary. *)
Definition quadrantids : Shower :=
  {| name := "Quadrantids"%string; peak := "01-03"%string;
     start := "12-28"%string; end_ := "01-12"%string;
     rate := 120; parent := "2003 EH1"%string |}.

Definition METEOR_SHOWERS : list Shower :=
  [ quadrantids;
    {| name := "Lyrids"%string; peak := "04-22"%string;
       start := "04-16"%string; end_ := "04-25"%string;
       rate := 18; parent := "C/1861 G1 (Thatcher)"%string |};
    {| name := "Eta Aquariids"%string; peak := "05-06"%string;
       start := "04-19"%string; end_ := "05-28"%string;
       rate := 50; parent := "1P/Halley"%string |};
    {| name := "Delta Aquariids"%string; peak := "07-30"%string;
       start := "07-12"%string; end_ := "08-23"%string;
       rate := 25; parent := "96P/Machholz"%string |};
    {| name := "Perseids"%string; peak := "08-12"%string;
       start := "07-17"%string; end_ := "08-24"%string;
       rate := 100; parent := "109P/Swift-Tuttle"%string |};
    {| name := "Draconids"%string; peak := "10-08"%string;
       start := "10-06"%string; end_ := "10-10"%string;
       rate := 10; parent := "21P/Giacobini-Zinner"%string |};
    {| name := "Orionids"%string; peak := "10-21"%string;
       start := "10-02"%string; end_ := "11-07"%string;
       rate := 20; parent := "1P/Halley"%string |};
    {| name := "Leonids"%string; peak := "11-17"%string;
       start := "11-06"%string; end_ := "11-30"%string;
       rate := 15; parent := "55P/Tempel-Tuttle"%string |};
    {| name := "Geminids"%string; peak := "12-14"%string;
       start := "12-04"%string; end_ := "12-17"%string;
       rate := 150; parent := "3200 Phaethon"%string |};
    {| name := "Ursids"%string; peak := "12-22"%string;
       start := "12-17"%string; end_ := "12-26"%string;
       rate := 10; parent := "8P/Tuttle"%string |} ].

(** [s.split(sep)] for a one-character separator. *)
Fixpoint split (sep : Ascii.ascii) (s : String.string) : list String.string :=
  match s with
  | String.EmptyString => [String.EmptyString]
  | String.String c rest =>
      if Ascii.eqb c sep then String.EmptyString :: split sep rest
      else match split sep rest with
           | [] => [String.String c String.EmptyString]
           | field :: fields => String.String c field :: fields
           end
  end.

(** The value of a decimal digit. *)
Definition digit (c : Ascii.ascii) : option Z :=
  let n := Z.of_nat (Ascii.nat_of_ascii c) in
  if (48 <=? n) && (n <=? 57) then Some (n - 48) else None.

Fixpoint numberFrom (acc : Z) (s : String.string) : option Z :=
  match s with
  | String.EmptyString => Some acc
  | String.String c rest =>
      match digit c with
      | Some d => numberFrom (10 * acc + d) rest
      | None => None
      end
  end.

(** [Number(s)] on strings of decimal digits, which is what the table
    holds; no result stands for [NaN]. *)
Definition Number (s : String.string) : option Z := numberFrom 0 s.

(** A [Date] is its local time value, or nothing when it is invalid. *)
Definition Date : Type := option Z.

(** [parseMMDD(mmdd, year)] *)
Definition parseMMDD (mmdd : String.string) (year : Z) : Date :=
  match map Number (split "-"%char mmdd) with
  | Some m :: Some d :: _ => Some (JsDate.newDate year (m - 1) d)
  | _ => None
  end.

(** [a < b] and [a <= b] on dates: false when either is invalid. *)
Definition ltDate (a b : Date) : bool :=
  match a, b with
  | Some x, Some y => x <? y
  | _, _ => false
  end.

Definition leDate (a b : Date) : bool :=
  match a, b with
  | Some x, Some y => x <=? y
  | _, _ => false
  end.

(** [Math.ceil(x / d)] for integers [x] and [d > 0]. *)
Definition ceilDiv (x d : Z) : Z := - ((- x) / d).

(** [{ ...shower, isPeak, daysUntilPeak }] *)
Record ActiveShower : Type := {
  activeRow : Shower;
  isPeak : bool;
  daysUntilPeak : option Z
}.

(** [{ ...shower, daysUntilStart }] *)
Record UpcomingShower : Type := {
  upcomingRow : Shower;
  daysUntilStart : Z
}.

(** [{ active, upcoming }] *)
Record Calendar : Type := {
  active : list ActiveShower;
  upcoming : list UpcomingShower
}.

(** The dates [start], [end] and [peak] of a shower after the block that
    handles the wrap around the year boundary. *)
Definition anchored (shower : Shower) (now : Z) : Date * Date * Date :=
  let year := JsDate.getFullYear now in
  let start_ := parseMMDD (start shower) year in
  let end' := parseMMDD (end_ shower) year in
  let peak_ := parseMMDD (peak shower) year in
  if ltDate end' start_ then
    if JsDate.getMonth now <? 6 then
      (parseMMDD (start shower) (year - 1), end', peak_)
    else
      (start_, parseMMDD (end_ shower) (year + 1), parseMMDD (peak shower) (year + 1))
  else (start_, end', peak_).

(** The callback of [METEOR_SHOWERS.forEach]. *)
Definition visit (now : Z) (acc : Calendar) (shower : Shower) : Calendar :=
  let '(start_, end', peak_) := anchored shower now in
  let isPeak :=
    match peak_ with
    | Some p => Z.abs (now - p) <? 24 * 60 * 60 * 1000
    | None => false
    end in
  let isActive := leDate start_ (Some now) && leDate (Some now) end' in
  let daysUntilStart :=
    option_map (fun s => ceilDiv (s - now) (1000 * 60 * 60 * 24)) start_ in
  if isActive then
    {| active :=
         active acc
         ++ [{| activeRow := shower; isPeak := isPeak;
                daysUntilPeak :=
                  option_map (fun p => ceilDiv (p - now) (1000 * 60 * 60 * 24)) peak_ |}];
       upcoming := upcoming acc |}
  else
    match daysUntilStart with
    | Some d =>
        if (0 <? d) && (d <=? 60) then
          {| active := active acc;
             upcoming := upcoming acc
                         ++ [{| upcomingRow := shower; daysUntilStart := d |}] |}
        else acc
    | None => acc
    end.

(** [getActiveAndUpcomingShowers()], with the clock reading [now] as
    argument. *)
Definition getActiveAndUpcomingShowers (now : Z) : Calendar :=
  fold_left (visit now) METEOR_SHOWERS {| active := []; upcoming := [] |}.

(** The calendar classifies [shower] as active at [now]: it is in the list
    [active] and not in the list [upcoming]. *)
Definition reportedActive (shower : Shower) (now : Z) : Prop :=
  In shower (map activeRow (active (getActiveAndUpcomingShowers now)))
  /\ ~ In shower (map upcomingRow (upcoming (getActiveAndUpcomingShowers now))).

End Showers.

(** ** Runs of samples behind the passes (for [computePasses]) *)

Module PassRuns.
Import Passes.

(** [p] is the pass of the samples of indices [a] to [b]: it starts at the
    first and ends at the last, both have an elevation, no elevation read
    in between is below the minimum, and [p] culminates over them. *)
Definition visibleRun (elevation : Z -> option Q) (now a b : Z) (p : Pass)
  : Prop :=
  0 <= a /\ a <= b
  /\ coversRun elevation now a b p
  /\ (forall j e, a <= j <= b ->
                  elevation (sampleTime now j) = Some e ->
                  (MIN_ELEVATION_DEG <= e)%Q)
  /\ (exists e, elevation (sampleTime now a) = Some e)
  /\ (exists e, elevation (sampleTime now b) = Some e).

(** A pass that was closed: its run ends before the last sample. *)
Definition closedRun (elevation : Z -> option Q) (now : Z) (p : Pass) : Prop :=
  exists a b, visibleRun elevation now a b p /\ b < sampleCount - 1.

(** [q] starts two steps after the end of [p] at the earliest. *)
Definition apart (p q : Pass) : Prop := end_ p + 2 * stepMs <= start q.

(** What the loop maintains before the sample at time [t], in terms of the
    samples read so far. *)
Definition runInvariant (elevation : Z -> option Q) (now : Z)
           (t : Z) (st : LoopState) : Prop :=
  exists k,
    0 <= k /\ t = sampleTime now k
    /\ Forall (fun p => closedRun elevation now p /\ end_ p + 2 * stepMs <= t)
              (passes st)
    /\ StronglySorted apart (passes st)
    /\ match currentPass st with
       | Some cp =>
           inPass st = true /\ maxEl_run st = maxEl cp
           /\ Forall (fun p => apart p cp) (passes st)
           /\ exists a b,
                visibleRun elevation now a b cp /\ b < k
                /\ (forall j, b < j < k -> elevation (sampleTime now j) = None)
       | None => inPass st = false
       end.

(** What holds of the list returned. *)
Definition runResult (elevation : Z -> option Q) (now : Z) (ps : list Pass)
  : Prop :=
  Forall (closedRun elevation now) ps /\ StronglySorted apart ps.

End PassRuns.

(** ** Pass cards ([formatPass], predictions.js) *)

Module PassCards.
Import Passes.

(** [Math.round(x / d)] for integers [x] and [d > 0]: halves go up. *)
Definition roundDiv (x d : Z) : Z := (2 * x + d) / (2 * d).

(** [Math.round(x)] on a rational. *)
Definition roundQ (x : Q) : Z := Qfloor (x + (1 # 2)).

(** The text of [timeLabel], by its template and the number in it. *)
Inductive TimeLabel : Type :=
| HAPPENING_NOW
| IN_MIN (n : Z)
| IN_HRS (n : Z)
| IN_DAYS (n : Z).

(** The chain of tests on [diffMs] that chooses [timeLabel]. *)
Definition timeLabelOf (diffMs : Z) : TimeLabel :=
  if diffMs <? 0 then HAPPENING_NOW
  else if diffMs <? 3600000 then IN_MIN (Showers.ceilDiv diffMs 60000)
  else if diffMs <? 86400000 then IN_HRS (roundDiv diffMs 3600000)
  else IN_DAYS (roundDiv diffMs 86400000).

Inductive Brightness : Type := EXCELLENT | GOOD | FAIR.

(** What [formatPass] computes and writes into the card. The times of day
    and the date, which the runtime formats by locale, are left out. *)
Record PassCard : Type := {
  nextCard : bool;
  timeLabel : TimeLabel;
  duration : Z;
  maxElFormatted : Z;
  brightness : Brightness
}.

(** [formatPass(pass, index)], with the clock reading as argument. *)
Definition formatPass (clock : Z) (pass : Pass) (index : nat) : PassCard :=
  let diffMs := start pass - clock in
  let isNext := 0 <? diffMs in
  let duration := roundDiv (end_ pass - start pass) 1000 in
  let maxElFormatted := roundQ (maxEl pass) in
  let brightness :=
    if 40 <? maxElFormatted then EXCELLENT
    else if 20 <? maxElFormatted then GOOD
    else FAIR in
  {| nextCard := (index =? 0)%nat && isNext;
     timeLabel := timeLabelOf diffMs;
     duration := duration;
     maxElFormatted := maxElFormatted;
     brightness := brightness |}.

End PassCards.

(** ** The rules behind the two lists of the calendar *)

Module ShowerRules.
Import Showers.

(** [isActive] for [shower] at [now]. *)
Definition isActiveAt (now : Z) (shower : Shower) : bool :=
  let '(start_, end', _) := anchored shower now in
  leDate start_ (Some now) && leDate (Some now) end'.

(** [daysUntilStart] for [shower] at [now]; nothing stands for [NaN]. *)
Definition daysUntilStartAt (now : Z) (shower : Shower) : option Z :=
  let '(start_, _, _) := anchored shower now in
  option_map (fun s => ceilDiv (s - now) (1000 * 60 * 60 * 24)) start_.

(** The test of the [else if] branch, reached when [shower] is not active. *)
Definition isUpcomingAt (now : Z) (shower : Shower) : bool :=
  negb (isActiveAt now shower)
  && match daysUntilStartAt now shower with
     | Some d => (0 <? d) && (d <=? 60)
     | None => false
     end.

End ShowerRules.

(** ** Approximate location ([getApproxLocation], app.js) *)

(** [x < y] and [x <= y] of the source, as boolean tests on [Q]. *)
Definition Qltb (x y : Q) : bool := negb (Qle_bool y x).

Definition Qleb (x y : Q) : bool := Qle_bool x y.

Module Geocode.
Import Stdlib.Strings.String.

(** [getApproxLocation(lat, lng)]: the name shown when the reverse geocoding
    request fails. *)
Definition getApproxLocation (lat lng : Q) : string :=
  if Qgtb lat (66 # 1) then "Arctic Region"
  else if Qltb lat (-66 # 1) then "Antarctic Region"
  else if Qgtb lng (100 # 1) && Qgtb lat 0 && Qltb lat (60 # 1)
  then "North Pacific Ocean"
  else if Qgtb lng (100 # 1) && Qleb lat 0 then "South Pacific Ocean"
  else if Qltb lng (-100 # 1) && Qgtb lat 0 then "North Pacific Ocean"
  else if Qltb lng (-100 # 1) && Qleb lat 0 then "South Pacific Ocean"
  else if Qgtb lng (-60 # 1) && Qltb lng (-10 # 1) && Qgtb lat 0 && Qltb lat (60 # 1)
  then "North Atlantic Ocean"
  else if Qgtb lng (-60 # 1) && Qltb lng 0 && Qleb lat 0 && Qgtb lat (-55 # 1)
  then "South Atlantic Ocean"
  else if Qgtb lng (40 # 1) && Qleb lng (100 # 1) && Qleb lat 0 && Qgtb lat (-55 # 1)
  then "Indian Ocean"
  else if Qgtb lng (60 # 1) && Qleb lng (100 # 1) && Qgtb lat 0 && Qltb lat (25 # 1)
  then "Indian Ocean"
  else if Qgtb lng (-10 # 1) && Qltb lng (40 # 1) && Qgtb lat (35 # 1) && Qltb lat (66 # 1)
  then "Europe"
  else if Qgtb lng (-20 # 1) && Qltb lng (55 # 1) && Qgtb lat (-35 # 1) && Qltb lat (35 # 1)
  then "Africa"
  else if Qgtb lng (40 # 1) && Qltb lng (65 # 1) && Qgtb lat (10 # 1) && Qltb lat (45 # 1)
  then "Middle East"
  else if Qgtb lng (65 # 1) && Qleb lng (100 # 1) && Qgtb lat (25 # 1) && Qltb lat (55 # 1)
  then "Central Asia"
  else if Qgtb lng (100 # 1) && Qltb lng (145 # 1) && Qgtb lat (10 # 1) && Qltb lat (55 # 1)
  then "East Asia"
  else if Qgtb lng (65 # 1) && Qleb lng (100 # 1) && Qgtb lat (5 # 1) && Qleb lat (25 # 1)
  then "South Asia"
  else if Qgtb lng (100 # 1) && Qltb lng (180 # 1) && Qgtb lat (-15 # 1) && Qleb lat (10 # 1)
  then "Southeast Asia"
  else if Qgtb lng (110 # 1) && Qltb lng (180 # 1) && Qgtb lat (-50 # 1) && Qleb lat (-10 # 1)
  then "Oceania"
  else if Qgtb lng (-130 # 1) && Qltb lng (-60 # 1) && Qgtb lat (15 # 1) && Qltb lat (55 # 1)
  then "North America"
  else if Qgtb lng (-60 # 1) && Qltb lng (-30 # 1) && Qgtb lat 0 && Qltb lat (20 # 1)
  then "Caribbean"
  else if Qgtb lng (-120 # 1) && Qltb lng (-60 # 1) && Qgtb lat (5 # 1) && Qleb lat (15 # 1)
  then "Central America"
  else if Qgtb lng (-85 # 1) && Qltb lng (-30 # 1) && Qgtb lat (-55 # 1) && Qleb lat (5 # 1)
  then "South America"
  else "Over the Ocean".

End Geocode.

(** ** Reverse geocoding ([throttledGeocode], [reverseGeocode], app.js) *)

Module GeocodeRequest.
Import Stdlib.Strings.String.

(** [throttledGeocode(lat, lng)] at the clock reading [now]: the new value
    of [state.lastGeocode], and whether [reverseGeocode] is called. *)
Definition throttledGeocode (now : Z) (lastGeocode : Z) : Z * bool :=
  if now - lastGeocode <? 15000 then (lastGeocode, false)
  else (now, true).

(** The clock readings at which [reverseGeocode] is called, over a run of
    position fixes taken at the readings [clocks]. *)
Fixpoint requests (clocks : list Z) (lastGeocode : Z) : list Z :=
  match clocks with
  | [] => []
  | now :: rest =>
      let '(lastGeocode', called) := throttledGeocode now lastGeocode in
      if called then now :: requests rest lastGeocode'
      else requests rest lastGeocode'
  end.

(** [data.address], with the fields the code reads; a field is absent or a
    string. *)
Record Address : Type := {
  city : option string;
  town : option string;
  village : option string;
  municipality : option string;
  county : option string;
  state : option string;
  region : option string;
  country : option string;
  ocean : option string;
  sea : option string
}.

(** The answer of the geocoding service. *)
Record GeocodeData : Type := {
  address : option Address;
  display_name : option string
}.

(** [a || b] on strings that may be absent: the empty string and the absent
    one are falsy. *)
Definition truthy (s : string) : bool :=
  match s with
  | EmptyString => false
  | String _ _ => true
  end.

Fixpoint firstTruthy (candidates : list (option string)) (otherwise : string)
  : string :=
  match candidates with
  | [] => otherwise
  | Some s :: rest => if truthy s then s else firstTruthy rest otherwise
  | None :: rest => firstTruthy rest otherwise
  end.

(** [parts.join(', ')] *)
Fixpoint join (parts : list string) : string :=
  match parts with
  | [] => ""
  | [part] => part
  | part :: rest => part ++ ", " ++ join rest
  end.

(** The array [parts] after the block [if (data.address)]. *)
Definition partsOf (a : Address) : list string :=
  let city := firstTruthy [city a; town a; village a; municipality a; county a] "" in
  let stateOrRegion := firstTruthy [state a; region a] "" in
  let country := firstTruthy [country a] "" in
  let ocean := firstTruthy [ocean a; sea a] "" in
  let parts := if truthy city then [city] else [] in
  let parts :=
    if truthy stateOrRegion && negb (stateOrRegion =? city)%string
    then parts ++ [stateOrRegion] else parts in
  let parts := if truthy country then parts ++ [country] else parts in
  if (Nat.eqb (List.length parts) 0) && truthy ocean then parts ++ [ocean] else parts.

(** [locationText] *)
Definition locationText (data : GeocodeData) : string :=
  let parts := match address data with Some a => partsOf a | None => [] end in
  if (0 <? List.length parts)%nat then join parts
  else firstTruthy [display_name data] "Over the Ocean".

(** [reverseGeocode(lat, lng)]: the text written to [state.currentLocation]
    and to the location element. [response] is the parsed answer of the
    service, absent when the request or its parsing fails. *)
Definition reverseGeocode (lat lng : Q) (response : option GeocodeData) : string :=
  match response with
  | Some data => locationText data
  | None => Geocode.getApproxLocation lat lng
  end.

End GeocodeRequest.

(** ** The orbit trail without segmentation (the plain [addTrailPoint],
       app.js) *)

Module TrailPlain.
Import Trail.

(** The buffer after the [push] and the [shift] of [addTrailPoint]. *)
Definition bufferAfter (lat lng : Q) (st : State) : list Point :=
  let tp := trailPoints st ++ [(lat, lng)] in
  if (TRAIL_MAX <? length tp)%nat then tl tp else tp.

(** The variant of [addTrailPoint] that hands the whole buffer to the globe
    as one path, [[{ coords: [...state.trailPoints] }]]. *)
Definition addTrailPointPlain (lat lng : Q) (st : State) : option State :=
  let tp := bufferAfter lat lng st in
  match globe st with
  | Some g =>
      if (2 <=? length tp)%nat then
        Some {| globe := Some {| pathsData := [{| coords := tp |}] |};
                trailPoints := tp |}
      else Some {| globe := Some g; trailPoints := tp |}
  | None => Some {| globe := None; trailPoints := tp |}
  end.

(** The number of antimeridian crossings between consecutive points. *)
Fixpoint crossingsFrom (prev : Point) (rest : list Point) : nat :=
  match rest with
  | [] => 0
  | curr :: rest' =>
      (if crossing (lng prev) (lng curr) then 1 else 0) + crossingsFrom curr rest'
  end.

Definition crossings (tp : list Point) : nat :=
  match tp with
  | [] => 0
  | p0 :: rest => crossingsFrom p0 rest
  end.

End TrailPlain.

(** ** Drawer system ([openDrawer], [closeDrawer], panels module) *)

Module Drawers.
Import Stdlib.Strings.String.

(** What the drawer code reads and writes: the variable [activeDrawer] (an
    element, here its id), the drawers that carry the class [open], whether
    the panel carries [panel--hidden], and the buttons that carry [active]
    (a button by its [data-drawer] value). *)
Record State : Type := {
  activeDrawer : option string;
  openClass : string -> bool;
  panelHidden : bool;
  buttonActive : string -> bool
}.

(** [classList.remove(c)] and [classList.add(c)] on the element [d]. *)
Definition removeClass (d : string) (cls : string -> bool) : string -> bool :=
  fun x => if (x =? d)%string then false else cls x.

Definition addClass (d : string) (cls : string -> bool) : string -> bool :=
  fun x => if (x =? d)%string then true else cls x.

(** [closeDrawer()] *)
Definition closeDrawer (st : State) : State :=
  {| activeDrawer := None;
     openClass := match activeDrawer st with
                  | Some d => removeClass d (openClass st)
                  | None => openClass st
                  end;
     panelHidden := false;
     buttonActive := fun _ => false |}.

Section WithDocument.

(** [document.getElementById(id)] finds an element. *)
Variable elementExists : string -> bool.

(** [openDrawer(id)], without the panel-specific initialisations it
    triggers. *)
Definition openDrawer (id : string) (st : State) : State :=
  if negb (elementExists id) then st
  else
    let st :=
      match activeDrawer st with
      | Some d =>
          if negb (d =? id)%string then
            {| activeDrawer := activeDrawer st;
               openClass := removeClass d (openClass st);
               panelHidden := panelHidden st;
               buttonActive := buttonActive st |}
          else st
      | None => st
      end in
    let sameDrawer :=
      match activeDrawer st with
      | Some d => (d =? id)%string
      | None => false
      end in
    if sameDrawer && openClass st id then closeDrawer st
    else
      {| activeDrawer := Some id;
         openClass := addClass id (openClass st);
         panelHidden := true;
         buttonActive := fun x => (x =? id)%string |}.

(** A click on a drawer button or on a close button. *)
Inductive Click : Type :=
| OnDrawerButton (id : string)
| OnCloseButton.

Definition click (c : Click) (st : State) : State :=
  match c with
  | OnDrawerButton id => openDrawer id st
  | OnCloseButton => closeDrawer st
  end.

Definition clicks (cs : list Click) (st : State) : State :=
  fold_left (fun st c => click c st) cs st.

End WithDocument.

(** The page before any click: no drawer open, the panel shown. *)
Definition closed : State :=
  {| activeDrawer := None;
     openClass := fun _ => false;
     panelHidden := false;
     buttonActive := fun _ => false |}.

(** The drawers, the panel and the buttons agree with [activeDrawer]. *)
Definition consistent (st : State) : Prop :=
  (forall x, openClass st x = true <-> activeDrawer st = Some x)
  /\ (panelHidden st = true <-> activeDrawer st <> None)
  /\ (forall x, buttonActive st x = true <-> activeDrawer st = Some x).

End Drawers.

(** ** Estimated telemetry ([generateTelemetryValue], [renderTelemetry],
       panels module) *)

Module Telemetry.

(** An entry of [TELEMETRY_SPECS], without its unit and its label. *)
Record Spec : Type := {
  min : Q;
  max : Q;
  decimals : option nat
}.

(** What [generateTelemetryValue] returns: the number [Math.round] gives, or
    the text [toFixed(digits)] gives, which reads [n / 10^digits]. *)
Inductive Value : Type :=
| Rounded (n : Z)
| Fixed (digits : nat) (n : Z).

(** [10^digits] *)
Definition scale (digits : nat) : Q := inject_Z (10 ^ Z.of_nat digits).

(** [parseFloat(val)] *)
Definition numberOf (v : Value) : Q :=
  match v with
  | Rounded n => inject_Z n
  | Fixed digits n => inject_Z n / scale digits
  end.

(** The integer [n] of [x.toFixed(digits)]: [n / 10^digits] is nearest to
    [x], the larger in magnitude of two that are as near. *)
Definition toFixedDigits (digits : nat) (x : Q) : Z :=
  if Qltb x 0 then - Qfloor (- x * scale digits + (1 # 2))
  else Qfloor (x * scale digits + (1 # 2)).

(** [generateTelemetryValue(spec)], with the values of [Math.sin(t * 0.7)]
    and of [Math.random()] as arguments. *)
Definition generateTelemetryValue (spec : Spec) (sine random : Q) : Value :=
  let range := (max spec - min spec)%Q in
  let base := (min spec + range * ((1 # 2) + (4 # 10) * sine))%Q in
  let noise := ((random - (1 # 2)) * range * (5 # 100))%Q in
  let value := Qmax (min spec) (Qmin (max spec) (base + noise)) in
  match decimals spec with
  | Some digits => Fixed digits (toFixedDigits digits value)
  | None => Rounded (PassCards.roundQ value)
  end.

(** [percent] in [renderTelemetry]. *)
Definition percent (spec : Spec) (val : Value) : Q :=
  ((numberOf val - min spec) / (max spec - min spec) * (100 # 1))%Q.

(** The width given to the fill, in percent:
    [Math.max(0, Math.min(100, percent))]. *)
Definition fillWidth (spec : Spec) (val : Value) : Q :=
  Qmax 0 (Qmin (100 # 1) (percent spec val)).

(** [q] has no more decimals than the value shown: [q * 10^digits] is an
    integer, with no digits when the value is rounded. *)
Definition shownExactly (spec : Spec) (q : Q) : Prop :=
  exists a : Z,
    (q * scale (match decimals spec with Some digits => digits | None => 0%nat end)
     == inject_Z a)%Q.

End Telemetry.

(** ** Camera follow ([updateGlobe] and the [start] listener, app.js) *)

Module Camera.

(** [CONFIG.CAMERA_IDLE_THRESHOLD] *)
Definition CAMERA_IDLE_THRESHOLD : Z := 3.

(** The fields of [state] the camera follow reads and writes. *)
Record State : Type := {
  updateCount : Z;
  userInteracted : bool;
  lastInteractionTime : Z;
  idleUpdates : Z
}.

(** The values [state] is created with. *)
Definition initial : State :=
  {| updateCount := 0; userInteracted := false;
     lastInteractionTime := 0; idleUpdates := 0 |}.

(** The listener of the [start] event of the controls, at the clock
    reading [now]. *)
Definition onStart (now : Z) (st : State) : State :=
  {| updateCount := updateCount st;
     userInteracted := true;
     lastInteractionTime := now;
     idleUpdates := 0 |}.

(** The camera part of [updateGlobe(lat, lng)] with a globe attached, at the
    clock reading [now]: the new state, and whether [pointOfView] is called
    to move the camera over the station. *)
Definition updateGlobe (now : Z) (st : State) : State * bool :=
  let st := {| updateCount := updateCount st + 1;
               userInteracted := userInteracted st;
               lastInteractionTime := lastInteractionTime st;
               idleUpdates := idleUpdates st |} in
  let timeSinceInteraction := now - lastInteractionTime st in
  let userIdle := 15000 <? timeSinceInteraction in
  if updateCount st <=? 2 then (st, true)
  else if negb (userInteracted st) || userIdle then
    let st := {| updateCount := updateCount st;
                 userInteracted := userInteracted st;
                 lastInteractionTime := lastInteractionTime st;
                 idleUpdates := idleUpdates st + 1 |} in
    if CAMERA_IDLE_THRESHOLD <=? idleUpdates st then
      ({| updateCount := updateCount st;
          userInteracted := userInteracted st;
          lastInteractionTime := lastInteractionTime st;
          idleUpdates := 0 |}, true)
    else (st, false)
  else (st, false).

(** A run of position fixes at the clock readings [clocks]: the final state
    and, fix by fix, whether the camera was moved. *)
Fixpoint fixes (clocks : list Z) (st : State) : State * list bool :=
  match clocks with
  | [] => (st, [])
  | now :: rest =>
      let '(st1, moved) := updateGlobe now st in
      let '(st2, moves) := fixes rest st1 in
      (st2, moved :: moves)
  end.

(** The number of [clocks] later than 15 seconds after [t]. *)
Definition idleFixes (t : Z) (clocks : list Z) : nat :=
  length (filter (fun now => 15000 <? now - t) clocks).

End Camera.

(** ** Element set and location of a prediction ([fetchTLE],
       [requestLocation], [initPassPrediction], predictions.js) *)

Module Prediction.
Import Stdlib.Strings.String.

Section WithSatelliteJs.

(** [satellite.twoline2satrec], as a black box. *)
Variable satrec : Type.
Variable twoline2satrec : string -> string -> satrec.

(** [tleData] *)
Record TleData : Type := { tleSatrec : satrec; tleName : string }.

(** [userLocation] *)
Record UserLocation : Type := { locLat : Q; locLng : Q; locAlt : Q }.

(** The module variables of the prediction. *)
Record State : Type := {
  tleData : option TleData;
  userLocation : option UserLocation
}.

(** [fetchTLE()] from the answer of the service: [lines] is
    [text.trim().split('\n').map(l => l.trim())], absent when the request
    fails. The new [tleData] and the value returned. *)
Definition fetchTLE (lines : option (list string)) (st : State) : State * bool :=
  match lines with
  | Some (l0 :: l1 :: l2 :: _) =>
      ({| tleData := Some {| tleSatrec := twoline2satrec l1 l2; tleName := l0 |};
          userLocation := userLocation st |}, true)
  | Some [l0; l1] =>
      ({| tleData := Some {| tleSatrec := twoline2satrec l0 l1;
                             tleName := "ISS (ZARYA)" |};
          userLocation := userLocation st |}, true)
  | _ => (st, false)
  end.

(** The position the geolocation reports: the altitude, in metres, may
    be missing. *)
Record Coords : Type := {
  coordsLatitude : Q;
  coordsLongitude : Q;
  coordsAltitude : option Q
}.

(** [requestLocation()]: the promise resolves with the location stored, or
    rejects when there is no answer. The altitude is taken in kilometres,
    and as 0 when it is missing or 0. *)
Definition requestLocation (answer : option Coords) (st : State)
  : State * option UserLocation :=
  match answer with
  | Some c =>
      let loc := {| locLat := coordsLatitude c;
                    locLng := coordsLongitude c;
                    locAlt := (match coordsAltitude c with
                               | Some a => a
                               | None => 0
                               end / (1000 # 1))%Q |} in
      ({| tleData := tleData st; userLocation := Some loc |}, Some loc)
  | None => (st, None)
  end.

(** What a run of [initPassPrediction] ends with: [StatusMissing] is the
    [TypeError] of writing the text of a status element that does not
    exist. *)
Inductive Shown : Type :=
| NoContainer
| StatusMissing
| FetchFailed
| LocationDenied
| Computed (tle : TleData) (loc : UserLocation).

(** What a run asked of the outside: the element set, the location. *)
Record Asked : Type := { askedTle : bool; askedLocation : bool }.

(** [initPassPrediction()] up to the call of [computePasses], whose
    arguments [Computed] records. [container] and [statusEl] tell whether
    the two elements exist; [lines] and [answer] are what the services
    would answer. *)
Definition initPassPrediction (container statusEl : bool)
           (lines : option (list string)) (answer : option Coords) (st : State)
  : State * Shown * Asked :=
  if negb container then
    (st, NoContainer, {| askedTle := false; askedLocation := false |})
  else if negb statusEl then
    (st, StatusMissing, {| askedTle := false; askedLocation := false |})
  else
    let '(st1, okTle, askedT) :=
      match tleData st with
      | None => let '(st', ok) := fetchTLE lines st in (st', ok, true)
      | Some _ => (st, true, false)
      end in
    if negb okTle then
      (st1, FetchFailed, {| askedTle := askedT; askedLocation := false |})
    else
      let '(st2, askedL) :=
        match userLocation st1 with
        | None => (fst (requestLocation answer st1), true)
        | Some _ => (st1, false)
        end in
      match tleData st2, userLocation st2 with
      | Some tle, Some loc =>
          (st2, Computed tle loc, {| askedTle := askedT; askedLocation := askedL |})
      | _, _ =>
          (st2, LocationDenied, {| askedTle := askedT; askedLocation := askedL |})
      end.

(** The outside of one run: the elements of the page and the answers of
    the two services. *)
Record Run : Type := {
  runContainer : bool;
  runStatusEl : bool;
  runLines : option (list string);
  runAnswer : option Coords
}.

(** Runs of [initPassPrediction] as the clicks on the button of the panel
    start them, each one finished before the next starts: the final state
    and what each run ended with and asked. *)
Fixpoint runs (rs : list Run) (st : State) : State * list (Shown * Asked) :=
  match rs with
  | [] => (st, [])
  | r :: rest =>
      let '(st1, shown, asked) :=
        initPassPrediction (runContainer r) (runStatusEl r)
                           (runLines r) (runAnswer r) st in
      let '(st2, log) := runs rest st1 in
      (st2, (shown, asked) :: log)
  end.

End WithSatelliteJs.

End Prediction.

(** * Part II: theorems *)

Lemma Qgeb_true x y : Qgeb x y = true <-> (y <= x)%Q.
Proof. apply Qle_bool_iff. Qed.

Lemma Qgeb_false x y : Qgeb x y = false <-> (x < y)%Q.
Proof.
  unfold Qgeb. split; intro H.
  - apply Qnot_le_lt. intro Hle. apply Qle_bool_iff in Hle. congruence.
  - destruct (Qle_bool y x) eqn:E; [|reflexivity].
    apply Qle_bool_iff in E. exfalso. eapply Qlt_not_le; eauto.
Qed.

Lemma Qgtb_false x y : Qgtb x y = false <-> (x <= y)%Q.
Proof.
  unfold Qgtb. rewrite negb_false_iff. apply Qle_bool_iff.
Qed.

Lemma Qgtb_true x y : Qgtb x y = true <-> (y < x)%Q.
Proof.
  unfold Qgtb. rewrite negb_true_iff. split; intro H.
  - apply Qnot_le_lt. intro Hle. apply Qle_bool_iff in Hle. congruence.
  - destruct (Qle_bool x y) eqn:E; [|reflexivity].
    apply Qle_bool_iff in E. exfalso. eapply Qlt_not_le; eauto.
Qed.

Module TrailFacts.
Import Trail.

Lemma fold_walk rest : forall pre prev segs cur,
  fold_left (segStep (pre ++ prev :: rest))
            (seq (S (length pre)) (length rest)) (Some (segs, cur))
  = Some (walk prev rest segs cur).
Proof.
  induction rest as [|curr rest IH]; intros pre prev segs cur; [reflexivity|].
  cbn [length seq fold_left walk].
  assert (Hprev : nth_error (pre ++ prev :: curr :: rest) (S (length pre) - 1) = Some prev).
  { replace (S (length pre) - 1)%nat with (length pre + 0)%nat by lia.
    rewrite nth_error_app2 by lia.
    replace (length pre + 0 - length pre)%nat with 0%nat by lia. reflexivity. }
  assert (Hcurr : nth_error (pre ++ prev :: curr :: rest) (S (length pre)) = Some curr).
  { rewrite nth_error_app2 by lia.
    replace (S (length pre) - length pre)%nat with 1%nat by lia. reflexivity. }
  unfold segStep at 2. rewrite Hprev, Hcurr.
  specialize (IH (pre ++ [prev]) curr).
  rewrite <- app_assoc in IH. cbn [app] in IH.
  rewrite length_app in IH. cbn [length] in IH.
  replace (length pre + 1)%nat with (S (length pre)) in IH by lia.
  destruct (crossing (lng prev) (lng curr)); cbn [app]; apply IH.
Qed.

Lemma splitTrail_walk p0 rest :
  splitTrail (p0 :: rest)
  = Some (fst (walk p0 rest [] [p0]) ++ [{| coords := snd (walk p0 rest [] [p0]) |}]).
Proof.
  unfold splitTrail. cbn [nth_error length].
  replace (S (length rest) - 1)%nat with (length rest) by lia.
  pose proof (fold_walk rest [] p0 [] [p0]) as H. cbn [app length] in H.
  rewrite H. destruct (walk p0 rest [] [p0]); reflexivity.
Qed.

(** What the traversal keeps: the points, in order. *)
Lemma walk_concat rest : forall prev segs cur,
  concat (map coords (fst (walk prev rest segs cur))) ++ snd (walk prev rest segs cur)
  = concat (map coords segs) ++ cur ++ rest.
Proof.
  induction rest as [|curr rest IH]; intros prev segs cur; cbn [walk].
  - cbn [fst snd]. now rewrite app_nil_r.
  - destruct (crossing (lng prev) (lng curr)); rewrite IH.
    + rewrite map_app, concat_app. cbn [map concat coords].
      rewrite app_nil_r, <- app_assoc. reflexivity.
    + rewrite <- app_assoc. reflexivity.
Qed.

(** The traversal never closes or leaves an empty segment. *)
Lemma walk_nonempty rest : forall prev segs cur,
  cur <> [] -> Forall (fun s => coords s <> []) segs ->
  Forall (fun s => coords s <> []) (fst (walk prev rest segs cur))
  /\ snd (walk prev rest segs cur) <> [].
Proof.
  induction rest as [|curr rest IH]; intros prev segs cur Hcur Hsegs; cbn [walk].
  - split; assumption.
  - destruct (crossing (lng prev) (lng curr)); apply IH.
    + discriminate.
    + apply Forall_app. split; [assumption|]. constructor; [assumption|constructor].
    + destruct cur; discriminate.
    + assumption.
Qed.

Lemma smooth_single p : smooth [p].
Proof.
  intros i a b Ha Hb. destruct i as [|[|i]]; discriminate.
Qed.

Lemma smooth_snoc cur prev curr :
  smooth (cur ++ [prev]) -> crossing (lng prev) (lng curr) = false ->
  smooth ((cur ++ [prev]) ++ [curr]).
Proof.
  intros Hs Hc i a b Ha Hb.
  assert (Hlen : (S i < length ((cur ++ [prev]) ++ [curr]))%nat).
  { apply nth_error_Some. congruence. }
  rewrite !length_app in Hlen. cbn [length] in Hlen.
  destruct (Nat.eq_dec (S i) (length cur + 1)) as [E|E].
  - rewrite nth_error_app2 in Hb by (rewrite length_app; cbn [length]; lia).
    rewrite length_app in Hb. cbn [length] in Hb.
    replace (S i - (length cur + 1))%nat with 0%nat in Hb by lia.
    injection Hb as <-.
    rewrite nth_error_app1 in Ha by (rewrite length_app; cbn [length]; lia).
    rewrite nth_error_app2 in Ha by lia.
    replace (i - length cur)%nat with 0%nat in Ha by lia.
    injection Ha as <-.
    apply Qgtb_false. exact Hc.
  - rewrite nth_error_app1 in Ha by (rewrite length_app; cbn [length]; lia).
    rewrite nth_error_app1 in Hb by (rewrite length_app; cbn [length]; lia).
    exact (Hs i a b Ha Hb).
Qed.

(** Segments are closed exactly where a crossing is met, so none holds one. *)
Lemma walk_smooth rest : forall prev segs cur,
  smooth (cur ++ [prev]) -> Forall (fun s => smooth (coords s)) segs ->
  Forall (fun s => smooth (coords s)) (fst (walk prev rest segs (cur ++ [prev])))
  /\ smooth (snd (walk prev rest segs (cur ++ [prev]))).
Proof.
  induction rest as [|curr rest IH]; intros prev segs cur Hcur Hsegs; cbn [walk].
  - split; assumption.
  - destruct (crossing (lng prev) (lng curr)) eqn:Hc.
    + apply (IH curr _ []).
      * apply smooth_single.
      * apply Forall_app. split; [assumption|]. constructor; [assumption|constructor].
    + apply (IH curr segs (cur ++ [prev])).
      * apply smooth_snoc; assumption.
      * assumption.
Qed.

Lemma last_cons_default {A} (l : list A) : forall a d,
  last (a :: l) d = last l a.
Proof.
  induction l as [|b l IH]; intros a d; [reflexivity|].
  change (last (a :: b :: l) d) with (last (b :: l) d).
  rewrite (IH b d). symmetry. apply (IH b a).
Qed.

(** The last iteration, when the buffer ends in [q]. *)
Lemma walk_snoc rest : forall prev segs cur q,
  walk prev (rest ++ [q]) segs cur
  = (if crossing (lng (last rest prev)) (lng q)
     then (fst (walk prev rest segs cur) ++ [{| coords := snd (walk prev rest segs cur) |}], [q])
     else (fst (walk prev rest segs cur), snd (walk prev rest segs cur) ++ [q])).
Proof.
  induction rest as [|curr rest IH]; intros prev segs cur q.
  - cbn [app walk last fst snd]. reflexivity.
  - cbn [app walk]. 
    rewrite last_cons_default.
    destruct (crossing (lng prev) (lng curr)); apply IH.
Qed.

(** [addTrailPoint] never faults, and what it stores is the old buffer with
    the new point appended and, past the capacity, the head dropped. *)
Lemma addTrailPoint_buffer la lo st :
  exists st',
    addTrailPoint la lo st = Some st'
    /\ trailPoints st'
       = (if (TRAIL_MAX <? length (trailPoints st ++ [(la, lo)]))%nat
          then tl (trailPoints st ++ [(la, lo)])
          else trailPoints st ++ [(la, lo)]).
Proof.
  unfold addTrailPoint.
  set (tp := if (TRAIL_MAX <? _)%nat then _ else _).
  destruct (globe st) as [g|]; [|eexists; split; reflexivity].
  destruct (2 <=? length tp)%nat eqn:Hlen; [|eexists; split; reflexivity].
  destruct tp as [|p0 rest]; [discriminate|].
  rewrite splitTrail_walk. eexists; split; reflexivity.
Qed.

(** With a globe attached and two points or more in the buffer, the paths on
    the globe are the segments of the buffer. *)
Lemma addTrailPoint_paths la lo st st' g :
  globe st = Some g -> addTrailPoint la lo st = Some st' ->
  (2 <= length (trailPoints st'))%nat ->
  option_map pathsData (globe st') = splitTrail (trailPoints st').
Proof.
  unfold addTrailPoint. intros -> H Hlen.
  set (tp := if (TRAIL_MAX <? _)%nat then _ else _) in H.
  destruct (2 <=? length tp)%nat eqn:E.
  - destruct (splitTrail tp) as [segs|] eqn:Es; [|discriminate].
    injection H as <-. cbn. now rewrite Es.
  - injection H as <-. cbn in Hlen. apply Nat.leb_gt in E. lia.
Qed.

Lemma addTrailPoints_buffer pts : forall st,
  (length (trailPoints st) <= TRAIL_MAX)%nat ->
  exists st',
    addTrailPoints pts st = Some st'
    /\ (length (trailPoints st') <= TRAIL_MAX)%nat
    /\ trailPoints st'
       = skipn (length (trailPoints st ++ pts) - TRAIL_MAX) (trailPoints st ++ pts).
Proof.
  unfold TRAIL_MAX.
  induction pts as [|p pts IH]; intros st Hst.
  - exists st. cbn [addTrailPoints]. rewrite app_nil_r.
    replace (length (trailPoints st) - 60)%nat with 0%nat by lia.
    split; [reflexivity|]. split; [assumption|reflexivity].
  - cbn [addTrailPoints]. destruct p as [la lo]. cbn [lat lng fst snd].
    destruct (addTrailPoint_buffer la lo st) as (st1 & -> & Htp).
    unfold TRAIL_MAX in Htp. rewrite length_app in Htp. cbn [length] in Htp.
    assert (Hst1 : (length (trailPoints st1) <= 60)%nat
                   /\ skipn (length (trailPoints st1 ++ pts) - 60) (trailPoints st1 ++ pts)
                      = skipn (length (trailPoints st ++ (la, lo) :: pts) - 60)
                              (trailPoints st ++ (la, lo) :: pts)).
    { destruct (60 <? length (trailPoints st) + 1)%nat eqn:E.
      - apply Nat.ltb_lt in E.
        destruct (trailPoints st) as [|a tp] eqn:Etp; [cbn in E; lia|].
        cbn [length] in *. cbn [app tl] in Htp. rewrite Htp.
        rewrite length_app. cbn [length]. split; [lia|].
        rewrite <- !app_assoc. cbn [app length].
        rewrite !length_app. cbn [length].
        replace (S (length tp + S (length pts)) - 60)%nat
          with (S (length tp + (1 + length pts) - 60))%nat by lia.
        reflexivity.
      - apply Nat.ltb_ge in E. rewrite Htp, length_app. cbn [length].
        split; [lia|]. rewrite <- app_assoc. reflexivity. }
    destruct Hst1 as [Hlen1 Heq].
    destruct (IH st1 Hlen1) as (st' & Hrun & Hlen' & Htp').
    exists st'. split; [assumption|]. split; [assumption|].
    rewrite Htp'. exact Heq.
Qed.

(** C4: in every segment produced for a buffer of two points or more, two
    consecutive points never differ by more than 180 degrees of longitude. *)
Theorem segments_have_no_crossing (tp : list Point) :
  (2 <= length tp)%nat ->
  exists segments,
    splitTrail tp = Some segments
    /\ forall seg, In seg segments ->
       forall i p q,
         nth_error (coords seg) i = Some p ->
         nth_error (coords seg) (S i) = Some q ->
         (Qabs (lng q - lng p) <= 180 # 1)%Q.
Proof.
  intros Hlen. destruct tp as [|p0 rest]; [cbn in Hlen; lia|].
  rewrite splitTrail_walk. eexists. split; [reflexivity|].
  destruct (walk_smooth rest p0 [] [] (smooth_single p0) (Forall_nil _)) as [Hsegs Hcur].
  cbn [app] in Hsegs, Hcur.
  intros seg Hin. apply in_app_or in Hin. destruct Hin as [Hin|[<-|[]]].
  - rewrite Forall_forall in Hsegs. exact (Hsegs seg Hin).
  - exact Hcur.
Qed.

(** After 61 points, numbered from 0 by their longitude, the buffer holds 60
    points and starts with the point numbered 1. *)
Example sixty_one_points :
  option_map (fun st => (length (trailPoints st), hd_error (trailPoints st)))
    (addTrailPoints (map (fun n => (0 # 1, inject_Z (Z.of_nat n))) (seq 0 61))
       (initial None))
  = Some (60%nat, Some (0 # 1, 1 # 1)).
Proof. vm_compute. reflexivity. Qed.

(** A crossing between the last two points leaves the last point alone in
    the last segment. *)
Example crossing_at_the_end :
  splitTrail [(0 # 1, 170 # 1); (0 # 1, 179 # 1); (0 # 1, -179 # 1)]%Q
  = Some [ {| coords := [(0 # 1, 170 # 1); (0 # 1, 179 # 1)]%Q |};
           {| coords := [(0 # 1, -179 # 1)]%Q |} ].
Proof. vm_compute. reflexivity. Qed.

(** Witness of C4: the scenario buffer. *)
Lemma segments_have_no_crossing_witness :
  exists segments,
    splitTrail scenario = Some segments
    /\ forall seg, In seg segments ->
       forall i p q,
         nth_error (coords seg) i = Some p ->
         nth_error (coords seg) (S i) = Some q ->
         (Qabs (lng q - lng p) <= 180 # 1)%Q.
Proof.
  apply (segments_have_no_crossing scenario). cbn. lia.
Defined.

(** C5: the scenario buffer [(10,170),(10,175),(10,-179),(10,-175)] is split
    into exactly the two segments [(10,170),(10,175)] and
    [(10,-179),(10,-175)], both by the segmentation itself and by four calls
    of [addTrailPoint] on an empty trail with a globe attached. *)
Theorem scenario_two_segments :
  splitTrail scenario
  = Some [ {| coords := [(10 # 1, 170 # 1); (10 # 1, 175 # 1)]%Q |};
           {| coords := [(10 # 1, -179 # 1); (10 # 1, -175 # 1)]%Q |} ]
  /\ forall g,
      addTrailPoints scenario (initial (Some g))
      = Some {| globe := Some {| pathsData :=
                  [ {| coords := [(10 # 1, 170 # 1); (10 # 1, 175 # 1)]%Q |};
                    {| coords := [(10 # 1, -179 # 1); (10 # 1, -175 # 1)]%Q |} ] |};
                trailPoints := scenario |}.
Proof.
  split; [vm_compute; reflexivity|]. intros g. vm_compute. reflexivity.
Qed.

(** C6: whatever points are added to the empty trail, the buffer never holds
    more than 60 of them, and it holds the most recent ones in insertion
    order: after more than 60 additions, exactly the last 60. *)
Theorem trail_buffer_keeps_last_60 (g : option Globe) (pts : list Point) :
  exists st,
    addTrailPoints pts (initial g) = Some st
    /\ (length (trailPoints st) <= 60)%nat
    /\ trailPoints st = skipn (length pts - 60) pts
    /\ ((60 < length pts)%nat -> length (trailPoints st) = 60%nat).
Proof.
  destruct (addTrailPoints_buffer pts (initial g)) as (st & Hrun & Hlen & Htp).
  { cbn. unfold TRAIL_MAX. lia. }
  cbn [initial trailPoints app] in Htp. unfold TRAIL_MAX in *.
  exists st. split; [assumption|]. split; [assumption|]. split; [assumption|].
  intros Hmore. rewrite Htp, length_skipn. lia.
Qed.

(** C9: for a buffer of two points or more the segments, concatenated in
    order, are the buffer itself; none of them is empty; and when the last
    two points are on either side of the antimeridian, the last segment is
    the last point alone. *)
Theorem segments_partition_buffer (tp : list Point) :
  (2 <= length tp)%nat ->
  exists segments,
    splitTrail tp = Some segments
    /\ concat (map coords segments) = tp
    /\ Forall (fun seg => coords seg <> []) segments
    /\ (forall pre p q,
          tp = pre ++ [p; q] ->
          (180 # 1 < Qabs (lng q - lng p))%Q ->
          last segments {| coords := [] |} = {| coords := [q] |}).
Proof.
  intros Hlen. destruct tp as [|p0 rest]; [cbn in Hlen; lia|].
  rewrite splitTrail_walk. eexists. split; [reflexivity|].
  split; [|split].
  - rewrite map_app, concat_app. cbn [map concat coords]. rewrite app_nil_r.
    rewrite walk_concat. reflexivity.
  - destruct (walk_nonempty rest p0 [] [p0]) as [Hsegs Hcur];
      [discriminate|constructor|].
    apply Forall_app. split; [assumption|]. constructor; [assumption|constructor].
  - intros pre p q Htp Hjump. rewrite last_last. f_equal.
    assert (Hrest : exists rest', rest = rest' ++ [q] /\ last rest' p0 = p).
    { destruct pre as [|a pre]; cbn [app] in Htp.
      - injection Htp as -> ->. exists []. split; reflexivity.
      - injection Htp as -> ->. exists (pre ++ [p]). split.
        + rewrite <- app_assoc. reflexivity.
        + apply last_last. }
    destruct Hrest as (rest' & -> & Hlast).
    rewrite walk_snoc, Hlast.
    apply Qgtb_true in Hjump. unfold crossing. rewrite Hjump. reflexivity.
Qed.

(** Witness of C9: the buffer [(0,179),(0,-179)], whose two points are on
    either side of the antimeridian. *)
Lemma segments_partition_buffer_witness :
  exists segments,
    splitTrail [(0 # 1, 179 # 1); (0 # 1, -179 # 1)]%Q = Some segments
    /\ concat (map coords segments) = [(0 # 1, 179 # 1); (0 # 1, -179 # 1)]%Q
    /\ Forall (fun seg => coords seg <> []) segments
    /\ (forall pre p q,
          [(0 # 1, 179 # 1); (0 # 1, -179 # 1)]%Q = pre ++ [p; q] ->
          (180 # 1 < Qabs (lng q - lng p))%Q ->
          last segments {| coords := [] |} = {| coords := [q] |}).
Proof.
  apply (segments_partition_buffer [(0 # 1, 179 # 1); (0 # 1, -179 # 1)]%Q).
  cbn. lia.
Defined.

End TrailFacts.

Module PassFacts.
Import Passes.

Lemma StronglySorted_snoc {A} (R : A -> A -> Prop) (l : list A) (x : A) :
  StronglySorted R l -> Forall (fun a => R a x) l -> StronglySorted R (l ++ [x]).
Proof.
  induction l as [|a l IH]; intros Hs Hx; cbn [app].
  - constructor; constructor.
  - inversion Hs as [|? ? Hl Ha]; subst. inversion Hx as [|? ? Hax Hlx]; subst.
    constructor; [apply IH; assumption|].
    apply Forall_app. split; [assumption|]. constructor; [assumption|constructor].
Qed.

Lemma stepMs_pos : 0 < stepMs.
Proof. reflexivity. Qed.

Lemma sample_index_in_window now k :
  0 <= k -> sampleTime now k < now + windowMs -> 0 <= k < sampleCount.
Proof.
  unfold sampleTime, sampleCount.
  change (windowMs / stepMs) with 17280.
  change windowMs with 172800000. change stepMs with 10000. lia.
Qed.

Lemma sample_index_past_window now k :
  now + windowMs <= sampleTime now k -> sampleCount <= k.
Proof.
  unfold sampleTime, sampleCount.
  change (windowMs / stepMs) with 17280.
  change windowMs with 172800000. change stepMs with 10000. lia.
Qed.

Lemma sampleTime_next now k : sampleTime now k + stepMs = sampleTime now (k + 1).
Proof. unfold sampleTime, stepMs. lia. Qed.

Section WithSatelliteJs.

Variables satrec position : Type.
Variable degreesToRadians : Q -> Q.
Variable propagate : satrec -> Z -> option position.
Variable lookAt : ObserverGd -> position -> Z -> Look.

Section Loop.

Variable sat : satrec.
Variable observerGd : ObserverGd.

Local Abbreviation sample := (sample propagate lookAt sat observerGd).
Local Abbreviation sampling := (fun fuel => sampling propagate lookAt fuel sat observerGd).
Local Abbreviation elevationAt := (elevationAt propagate lookAt sat observerGd).

(** The rule of the loop: a property of the loop variables that every
    iteration keeps holds of what the loop returns, and the loop does
    return when it is given as many iterations as there are samples. *)
Lemma sampling_rule (I : Z -> LoopState -> Prop) (Post : list Pass -> Prop) (endT : Z) :
  (forall t st, I t st -> t < endT ->
     match sample t st with
     | Continue st' => I (t + stepMs) st'
     | Break st' => Post (passes st')
     | Fault => False
     end) ->
  (forall t st, I t st -> endT <= t -> Post (passes st)) ->
  forall fuel t st,
    I t st -> (0 < fuel)%nat -> endT - t <= stepMs * (Z.of_nat fuel - 1) ->
    exists ps, sampling fuel t endT st = Returned ps /\ Post ps.
Proof.
  intros Hstep Hexit. induction fuel as [|fuel IH]; intros t st HI Hpos Hfuel; [lia|].
  cbn [Passes.sampling]. destruct (t <? endT) eqn:Ht.
  - apply Z.ltb_lt in Ht. specialize (Hstep t st HI Ht).
    destruct (sample t st) as [st'|st'|].
    + apply IH; [assumption| |]; unfold stepMs in *; lia.
    + eexists; split; [reflexivity|assumption].
    + contradiction.
  - apply Z.ltb_ge in Ht. eexists; split; [reflexivity|]. apply (Hexit t st HI Ht).
Qed.

Lemma Forall_end_mono (t t' : Z) (ps : list Pass) :
  t <= t' ->
  Forall (fun p => wellFormed p /\ end_ p < t) ps ->
  Forall (fun p => wellFormed p /\ end_ p < t') ps.
Proof.
  intros Hle. apply Forall_impl. intros p [Hw He]. split; [assumption|lia].
Qed.

(** The effect of one sample on the loop variables, case by case. *)
Lemma sample_cases t st :
  (propagate sat t = None /\ sample t st = Continue st)
  \/ (exists e, elevationAt t = Some e /\ (e < MIN_ELEVATION_DEG)%Q
       /\ inPass st = false /\ sample t st = Continue st)
  \/ (exists e, elevationAt t = Some e /\ (e < MIN_ELEVATION_DEG)%Q
       /\ inPass st = true
       /\ match currentPass st with
          | None => sample t st = Fault
          | Some cp =>
              let st' := {| inPass := false; currentPass := None;
                            maxEl_run := 0; passes := passes st ++ [cp] |} in
              sample t st
              = if (5 <=? length (passes st ++ [cp]))%nat then Break st' else Continue st'
          end)
  \/ (exists e a, elevationAt t = Some e /\ (MIN_ELEVATION_DEG <= e)%Q
       /\ inPass st = false
       /\ sample t st
          = Continue {| inPass := true;
                        currentPass := Some {| start := t; startAz := a;
                                               maxEl := e; maxElTime := t;
                                               end_ := t; endAz := a |};
                        maxEl_run := e;
                        passes := passes st |})
  \/ (exists e a, elevationAt t = Some e /\ (MIN_ELEVATION_DEG <= e)%Q
       /\ inPass st = true
       /\ match currentPass st with
          | None => sample t st = Fault
          | Some cp =>
              sample t st
              = Continue
                  {| inPass := true;
                     currentPass :=
                       Some {| start := start cp; startAz := startAz cp;
                               maxEl := if Qgtb e (maxEl_run st) then e else maxEl cp;
                               maxElTime := if Qgtb e (maxEl_run st) then t else maxElTime cp;
                               end_ := t; endAz := a |};
                     maxEl_run := if Qgtb e (maxEl_run st) then e else maxEl_run st;
                     passes := passes st |}
          end).
Proof.
  unfold Passes.sample, Passes.elevationAt.
  destruct (propagate sat t) as [pos|]; [|left; split; reflexivity].
  right. cbn [option_map].
  set (e := elDeg (lookAt observerGd pos t)).
  set (a := azDeg (lookAt observerGd pos t)).
  destruct (Qgeb e MIN_ELEVATION_DEG) eqn:Hge.
  - apply Qgeb_true in Hge. right. right.
    destruct (inPass st) eqn:Hin; cbn [negb].
    + right. exists e, a. split; [reflexivity|]. split; [assumption|]. split; [reflexivity|].
      rewrite Hin.
      destruct (currentPass st) as [cp|]; [|reflexivity].
      destruct (Qgtb e (maxEl_run st)); reflexivity.
    + left. exists e, a. split; [reflexivity|]. split; [assumption|]. split; [reflexivity|].
      cbn [currentPass maxEl_run inPass passes start startAz maxEl maxElTime end_ endAz].
      assert (Hee : Qgtb e e = false) by (apply Qgtb_false; apply Qle_refl).
      rewrite Hee. reflexivity.
  - apply Qgeb_false in Hge.
    destruct (inPass st) eqn:Hin.
    + right. left. exists e. split; [reflexivity|]. split; [assumption|]. split; [reflexivity|].
      destruct (currentPass st) as [cp|]; reflexivity.
    + left. exists e. split; [reflexivity|]. split; [assumption|]. split; reflexivity.
Qed.

Lemma sample_keeps_invariant t st :
  loopInvariant t st ->
  match sample t st with
  | Continue st' => loopInvariant (t + stepMs) st'
  | Break st' => resultInvariant (passes st')
  | Fault => False
  end.
Proof.
  intros (Hlen & Hall & Hsort & Hcur).
  pose proof stepMs_pos as Hstep.
  assert (Hkeep : loopInvariant (t + stepMs) st).
  { split; [assumption|]. split; [apply (Forall_end_mono t); [lia|assumption]|].
    split; [assumption|].
    destruct (currentPass st) as [cp|]; [|assumption].
    destruct Hcur as (? & ? & ? & ?).
    split; [assumption|]. split; [assumption|]. split; [lia|assumption]. }
  destruct (sample_cases t st)
    as [[_ ->]|[(e & _ & _ & _ & ->)|[(e & _ & Hlow & Hin & Hs)
       |[(e & a & _ & Hhigh & Hin & ->)|(e & a & _ & Hhigh & Hin & Hs)]]]];
    try exact Hkeep.
  - (* the pass closes *)
    destruct (currentPass st) as [cp|]; [|congruence].
    destruct Hcur as (_ & Hwf & Hend & Hbefore). rewrite Hs.
    assert (Hsorted : StronglySorted (fun p q => end_ p < start q) (passes st ++ [cp]))
      by (apply StronglySorted_snoc; assumption).
    destruct (5 <=? length (passes st ++ [cp]))%nat eqn:Hfive.
    + cbn [passes]. split; [rewrite length_app; cbn [length]; lia|].
      split; [|assumption].
      apply Forall_app. split.
      * revert Hall. apply Forall_impl. intros p [Hp _]. exact Hp.
      * constructor; [assumption|constructor].
    + apply Nat.leb_gt in Hfive. cbn [passes].
      split; [assumption|]. cbn [passes currentPass inPass].
      split; [|split; [assumption|reflexivity]].
      apply Forall_app. split.
      * apply (Forall_end_mono t); [lia|assumption].
      * constructor; [|constructor]. split; [assumption|lia].
  - (* a pass opens *)
    split; [assumption|]. cbn [passes currentPass inPass].
    split; [apply (Forall_end_mono t); [lia|assumption]|].
    split; [assumption|].
    split; [reflexivity|]. split.
    + unfold wellFormed. cbn [start maxElTime end_ maxEl]. repeat split; try lia. assumption.
    + cbn [start end_]. split; [lia|].
      revert Hall. apply Forall_impl. intros p [_ Hp]. exact Hp.
  - (* the pass goes on *)
    destruct (currentPass st) as [cp|]; [|congruence].
    destruct Hcur as (_ & (Hw1 & Hw2 & Hw3) & Hend & Hbefore). rewrite Hs.
    split; [assumption|]. cbn [passes currentPass inPass].
    split; [apply (Forall_end_mono t); [lia|assumption]|].
    split; [assumption|].
    split; [reflexivity|]. split.
    + unfold wellFormed. cbn [start maxElTime end_ maxEl].
      destruct (Qgtb e (maxEl_run st)); repeat split; try lia; assumption.
    + cbn [start end_]. split; [lia|assumption].
Qed.

(** What one sample does to the list of closed passes: nothing, or it
    appends the current pass, and then the sample is below the minimum
    elevation. *)
Lemma sample_passes t st :
  match sample t st with
  | Continue st' | Break st' =>
      passes st' = passes st
      \/ exists cp e,
           currentPass st = Some cp /\ elevationAt t = Some e
           /\ (e < MIN_ELEVATION_DEG)%Q /\ passes st' = passes st ++ [cp]
  | Fault => True
  end.
Proof.
  destruct (sample_cases t st)
    as [[_ ->]|[(e & _ & _ & _ & ->)|[(e & He & Hlow & Hin & Hs)
       |[(e & a & _ & Hhigh & Hin & ->)|(e & a & _ & Hhigh & Hin & Hs)]]]];
    try (left; reflexivity).
  - destruct (currentPass st) as [cp|]; rewrite Hs; [|exact I].
    destruct (5 <=? length (passes st ++ [cp]))%nat;
      right; exists cp, e; repeat split; assumption.
  - destruct (currentPass st) as [cp|]; rewrite Hs; [|exact I].
    left; reflexivity.
Qed.

Lemma sample_low t st e :
  elevationAt t = Some e -> (e < MIN_ELEVATION_DEG)%Q ->
  sample t st
  = if inPass st then
      match currentPass st with
      | None => Fault
      | Some cp =>
          if (5 <=? length (passes st ++ [cp]))%nat
          then Break {| inPass := false; currentPass := None;
                        maxEl_run := 0; passes := passes st ++ [cp] |}
          else Continue {| inPass := false; currentPass := None;
                           maxEl_run := 0; passes := passes st ++ [cp] |}
      end
    else Continue st.
Proof.
  unfold Passes.sample, Passes.elevationAt.
  destruct (propagate sat t) as [pos|]; [|discriminate].
  cbn [option_map]. intros [= <-] Hlow. apply Qgeb_false in Hlow. rewrite Hlow.
  destruct (inPass st); [|reflexivity].
  destruct (currentPass st); reflexivity.
Qed.

Lemma sample_high t st e :
  elevationAt t = Some e -> (MIN_ELEVATION_DEG <= e)%Q ->
  exists a,
    sample t st
    = if inPass st then
        match currentPass st with
        | None => Fault
        | Some cp =>
            Continue
              {| inPass := true;
                 currentPass :=
                   Some {| start := start cp; startAz := startAz cp;
                           maxEl := if Qgtb e (maxEl_run st) then e else maxEl cp;
                           maxElTime := if Qgtb e (maxEl_run st) then t else maxElTime cp;
                           end_ := t; endAz := a |};
                 maxEl_run := if Qgtb e (maxEl_run st) then e else maxEl_run st;
                 passes := passes st |}
        end
      else
        Continue {| inPass := true;
                    currentPass := Some {| start := t; startAz := a;
                                           maxEl := e; maxElTime := t;
                                           end_ := t; endAz := a |};
                    maxEl_run := e;
                    passes := passes st |}.
Proof.
  unfold Passes.sample, Passes.elevationAt.
  destruct (propagate sat t) as [pos|]; [|discriminate].
  cbn [option_map]. intros [= <-] Hhigh.
  exists (azDeg (lookAt observerGd pos t)).
  apply Qgeb_true in Hhigh. rewrite Hhigh.
  destruct (inPass st) eqn:Hin; cbn [negb].
  - rewrite Hin. destruct (currentPass st) as [cp|]; [|reflexivity].
    destruct (Qgtb _ (maxEl_run st)); reflexivity.
  - cbn [currentPass maxEl_run inPass passes start startAz maxEl maxElTime end_ endAz].
    rewrite (proj2 (Qgtb_false _ _) (Qle_refl _)). reflexivity.
Qed.

Lemma loopInvariant_start now : loopInvariant now loopStart.
Proof.
  unfold loopInvariant, loopStart. cbn.
  split; [lia|]. split; [constructor|]. split; [constructor|reflexivity].
Qed.

Lemma loopInvariant_exit t st : loopInvariant t st -> resultInvariant (passes st).
Proof.
  intros (Hlen & Hall & Hsort & _). split; [lia|]. split; [|assumption].
  revert Hall. apply Forall_impl. intros p [Hp _]. exact Hp.
Qed.

Lemma fuelOfWindow_enough now :
  (0 < fuelOfWindow)%nat
  /\ (now + windowMs) - now <= stepMs * (Z.of_nat fuelOfWindow - 1).
Proof.
  split; [unfold fuelOfWindow; lia|].
  replace (now + windowMs - now) with windowMs by lia. vm_compute. discriminate.
Qed.

(** The loop returns, and what it returns satisfies [resultInvariant]. *)
Lemma sampling_total now :
  exists ps,
    sampling fuelOfWindow now (now + windowMs) loopStart = Returned ps
    /\ resultInvariant ps.
Proof.
  destruct (fuelOfWindow_enough now) as [Hpos Hfuel].
  apply (sampling_rule loopInvariant resultInvariant (now + windowMs)).
  - intros t st HI _. apply sample_keeps_invariant. exact HI.
  - intros t st HI _. apply (loopInvariant_exit t). exact HI.
  - apply loopInvariant_start.
  - exact Hpos.
  - exact Hfuel.
Qed.

(** One sample more of a run that was followed up to the sample before. *)
Lemma culminates_next now a k cp e az :
  a <= k ->
  elevationAt (sampleTime now k) = Some e ->
  culminates elevationAt now a (k - 1) cp ->
  culminates elevationAt now a k
    {| start := start cp; startAz := startAz cp;
       maxEl := if Qgtb e (maxEl cp) then e else maxEl cp;
       maxElTime := if Qgtb e (maxEl cp) then sampleTime now k else maxElTime cp;
       end_ := sampleTime now k; endAz := az |}.
Proof.
  intros Hak He [(i & Hi & Hei & Hti) Hmax]. unfold culminates. cbn [maxEl maxElTime].
  destruct (Qgtb e (maxEl cp)) eqn:Hgt.
  - apply Qgtb_true in Hgt. split.
    + exists k. split; [lia|]. split; [assumption|reflexivity].
    + intros j e' Hj He'. destruct (Z.eq_dec j k) as [->|Hne].
      * rewrite He in He'. injection He' as <-. apply Qle_refl.
      * apply Qle_trans with (maxEl cp); [|apply Qlt_le_weak; assumption].
        apply (Hmax j e'); [lia|assumption].
  - apply Qgtb_false in Hgt. split.
    + exists i. split; [lia|]. split; assumption.
    + intros j e' Hj He'. destruct (Z.eq_dec j k) as [->|Hne].
      * rewrite He in He'. injection He' as <-. assumption.
      * apply (Hmax j e'); [lia|assumption].
Qed.

(** When the samples at or above the minimum elevation are exactly those of
    indices [a] to [b], the loop goes through three phases: before the run,
    inside it with the current pass covering the samples met so far, and
    after it with that one pass closed. *)
Lemma sample_single_run now a b t st :
  0 <= a <= b -> b < sampleCount - 1 ->
  (forall k, 0 <= k < sampleCount ->
     exists e, elevationAt (sampleTime now k) = Some e
               /\ ((MIN_ELEVATION_DEG <= e)%Q <-> a <= k <= b)) ->
  singleRunInvariant elevationAt now a b t st -> t < now + windowMs ->
  match sample t st with
  | Continue st' => singleRunInvariant elevationAt now a b (t + stepMs) st'
  | Break _ | Fault => False
  end.
Proof.
  intros Hab Hb Hprofile (k & Hk & -> & Hphase) Ht.
  pose proof (sample_index_in_window now k Hk Ht) as Hkw.
  destruct (Hprofile k Hkw) as (e & He & Hiff).
  assert (Hlow : ~ a <= k <= b -> (e < MIN_ELEVATION_DEG)%Q).
  { intros Hout. apply Qnot_le_lt. intros Hle. apply Hout, Hiff, Hle. }
  destruct Hphase as [[Hka ->]|[[Hka (cp & -> & Hs & He_ & Hcul)]|[Hka (cp & -> & Hcov)]]].
  - destruct (Z.eq_dec k a) as [->|Hne].
    + destruct (sample_high _ {| inPass := false; currentPass := None;
                                 maxEl_run := 0; passes := [] |} e He) as (az & ->).
      { apply Hiff. lia. }
      cbn [inPass passes]. exists (a + 1). split; [lia|].
      split; [apply sampleTime_next|]. right. left. split; [lia|].
      exists {| start := sampleTime now a; startAz := az; maxEl := e;
                maxElTime := sampleTime now a; end_ := sampleTime now a; endAz := az |}.
      split; [reflexivity|]. replace (a + 1 - 1) with a by lia.
      split; [reflexivity|]. split; [reflexivity|]. split.
      * exists a. split; [lia|]. split; [assumption|reflexivity].
      * intros j e' Hj He'. replace j with a in He' by lia.
        rewrite He in He'. injection He' as <-. apply Qle_refl.
    + rewrite (sample_low _ _ e He) by (apply Hlow; lia). cbn [inPass].
      exists (k + 1). split; [lia|]. split; [apply sampleTime_next|].
      left. split; [lia|reflexivity].
  - destruct (Z_le_gt_dec k b) as [Hkb|Hkb].
    + destruct (sample_high _ {| inPass := true; currentPass := Some cp;
                                 maxEl_run := maxEl cp; passes := [] |} e He) as (az & ->).
      { apply Hiff. lia. }
      cbn [inPass currentPass maxEl_run passes].
      exists (k + 1). split; [lia|]. split; [apply sampleTime_next|].
      right. left. split; [lia|].
      exists {| start := start cp; startAz := startAz cp;
                maxEl := if Qgtb e (maxEl cp) then e else maxEl cp;
                maxElTime := if Qgtb e (maxEl cp) then sampleTime now k else maxElTime cp;
                end_ := sampleTime now k; endAz := az |}.
      split; [reflexivity|]. replace (k + 1 - 1) with k by lia.
      split; [exact Hs|]. split; [reflexivity|].
      apply culminates_next; [lia|assumption|assumption].
    + rewrite (sample_low _ _ e He) by (apply Hlow; lia).
      cbn [inPass currentPass passes app length Nat.leb].
      exists (k + 1). split; [lia|]. split; [apply sampleTime_next|].
      right. right. split; [lia|]. exists cp. split; [reflexivity|].
      replace (k - 1) with b in * by lia. split; [assumption|]. split; assumption.
  - rewrite (sample_low _ _ e He) by (apply Hlow; lia). cbn [inPass].
    exists (k + 1). split; [lia|]. split; [apply sampleTime_next|].
    right. right. split; [lia|]. exists cp. split; [reflexivity|assumption].
Qed.

(** Such a profile yields exactly one pass, which covers the run. *)
Lemma sampling_single_run now a b :
  0 <= a <= b -> b < sampleCount - 1 ->
  (forall k, 0 <= k < sampleCount ->
     exists e, elevationAt (sampleTime now k) = Some e
               /\ ((MIN_ELEVATION_DEG <= e)%Q <-> a <= k <= b)) ->
  exists cp,
    sampling fuelOfWindow now (now + windowMs) loopStart = Returned [cp]
    /\ coversRun elevationAt now a b cp.
Proof.
  intros Hab Hb Hprofile.
  destruct (fuelOfWindow_enough now) as [Hpos Hfuel].
  destruct (sampling_rule (singleRunInvariant elevationAt now a b)
              (fun ps => exists cp, ps = [cp] /\ coversRun elevationAt now a b cp)
              (now + windowMs)) with (fuel := fuelOfWindow) (t := now) (st := loopStart)
    as (ps & Hrun & cp & -> & Hcov).
  - intros t st HI Ht.
    pose proof (sample_single_run now a b t st Hab Hb Hprofile HI Ht) as Hstep.
    destruct (sample t st); [assumption|contradiction|contradiction].
  - intros t st (k & Hk & -> & Hphase) Hend.
    apply sample_index_past_window in Hend.
    destruct Hphase as [[Hka _]|[[Hka _]|[_ (cp & -> & Hcov)]]]; try lia.
    exists cp. split; [reflexivity|assumption].
  - exists 0. split; [lia|]. split; [unfold sampleTime; lia|].
    left. split; [lia|reflexivity].
  - exact Hpos.
  - exact Hfuel.
  - exists cp. split; assumption.
Qed.

End Loop.

Lemma StronglySorted_starts (ps : list Pass) :
  Forall wellFormed ps ->
  StronglySorted (fun p q => end_ p < start q) ps ->
  StronglySorted (fun p q => start p <= start q) ps.
Proof.
  induction ps as [|p ps IH]; intros Hwf Hs; [constructor|].
  inversion Hwf as [|? ? (Hp1 & Hp2 & _) Hps]; subst.
  inversion Hs as [|? ? Hs' Hp]; subst.
  constructor; [apply IH; assumption|].
  revert Hp. apply Forall_impl. intros q Hq. lia.
Qed.

(** C2: whatever the element set, the observer and the propagation, the
    call returns a list of at most 5 passes in increasing time order: no
    pass starts earlier than a pass before it in the list. *)
Theorem computePasses_at_most_five_in_order
  (tleData : option satrec) (now : Z) (observerLat observerLng observerAlt : Q) :
  exists ps,
    computePasses degreesToRadians propagate lookAt
                  tleData now observerLat observerLng observerAlt = Returned ps
    /\ (length ps <= 5)%nat
    /\ StronglySorted (fun p q => start p <= start q) ps.
Proof.
  unfold computePasses. destruct tleData as [sat|].
  - destruct (sampling_total sat
                (observerGdOf degreesToRadians observerLat observerLng observerAlt)
                now) as (ps & Hrun & Hlen & Hwf & Hsort).
    exists ps. split; [exact Hrun|]. split; [exact Hlen|].
    apply StronglySorted_starts; assumption.
  - exists []. split; [reflexivity|]. split; [cbn; lia|constructor].
Qed.

(** C10: every pass returned is well formed: its start is not later than
    the time of its maximum elevation, which is not later than its end, and
    its maximum elevation is at least the minimum elevation of 10 degrees. *)
Theorem computePasses_passes_well_formed
  (tleData : option satrec) (now : Z) (observerLat observerLng observerAlt : Q) :
  exists ps,
    computePasses degreesToRadians propagate lookAt
                  tleData now observerLat observerLng observerAlt = Returned ps
    /\ forall p, In p ps ->
         start p <= maxElTime p /\ maxElTime p <= end_ p
         /\ (10 # 1 <= maxEl p)%Q.
Proof.
  unfold computePasses. destruct tleData as [sat|].
  - destruct (sampling_total sat
                (observerGdOf degreesToRadians observerLat observerLng observerAlt)
                now) as (ps & Hrun & _ & Hwf & _).
    exists ps. split; [exact Hrun|].
    intros p Hin. rewrite Forall_forall in Hwf. exact (Hwf p Hin).
  - exists []. split; [reflexivity|]. intros p [].
Qed.

(** C3: when from the sample of index [a] on, up to the last sample of the
    window, no elevation read is below the minimum (so that a pass in
    progress there is never closed by a drop), no pass returned reaches the
    sample of index [a]: the pass in progress at the end of the window is
    absent from the result, and no pass returned ends at the last sample. *)
Theorem computePasses_drops_open_pass
  (sat : satrec) (now : Z) (observerLat observerLng observerAlt : Q) (a : Z) :
  0 <= a < sampleCount ->
  (forall k e,
     a <= k < sampleCount ->
     elevationAt propagate lookAt sat
       (observerGdOf degreesToRadians observerLat observerLng observerAlt)
       (sampleTime now k) = Some e ->
     (MIN_ELEVATION_DEG <= e)%Q) ->
  exists ps,
    computePasses degreesToRadians propagate lookAt
                  (Some sat) now observerLat observerLng observerAlt = Returned ps
    /\ forall p, In p ps ->
         end_ p < sampleTime now a
         /\ end_ p < sampleTime now (sampleCount - 1).
Proof.
  intros Ha Hhigh. unfold computePasses.
  set (obs := observerGdOf degreesToRadians observerLat observerLng observerAlt) in *.
  destruct (fuelOfWindow_enough now) as [Hpos Hfuel].
  destruct (sampling_rule sat obs
              (fun t st =>
                 loopInvariant t st
                 /\ (exists k, 0 <= k /\ t = sampleTime now k)
                 /\ Forall (fun p => end_ p < sampleTime now a) (passes st))
              (fun ps => Forall (fun p => end_ p < sampleTime now a) ps)
              (now + windowMs)) with (fuel := fuelOfWindow) (t := now) (st := loopStart)
    as (ps & Hrun & Hps).
  - intros t st (HI & (k & Hk & ->) & Hbefore) Ht.
    pose proof (sample_keeps_invariant sat obs _ _ HI) as Hkeep.
    pose proof (sample_passes sat obs (sampleTime now k) st) as Hpasses.
    assert (Hnext : exists k', 0 <= k' /\ sampleTime now k + stepMs = sampleTime now k').
    { exists (k + 1). split; [lia|]. unfold sampleTime, stepMs. lia. }
    assert (Hpush : forall st',
              (passes st' = passes st
               \/ exists cp e,
                    currentPass st = Some cp
                    /\ Passes.elevationAt propagate lookAt sat obs (sampleTime now k) = Some e
                    /\ (e < MIN_ELEVATION_DEG)%Q /\ passes st' = passes st ++ [cp]) ->
              Forall (fun p => end_ p < sampleTime now a) (passes st')).
    { intros st' [->|(cp & e & Hcp & He & Hlow & ->)]; [assumption|].
      apply Forall_app. split; [assumption|]. constructor; [|constructor].
      destruct HI as (_ & _ & _ & Hcur). rewrite Hcp in Hcur.
      destruct Hcur as (_ & _ & Hend & _).
      destruct (Z_lt_le_dec k a) as [Hka|Hka].
      - unfold sampleTime, stepMs in *. lia.
      - exfalso. apply (Qlt_not_le _ _ Hlow). apply (Hhigh k e); [|assumption].
        pose proof (sample_index_in_window now k Hk Ht). lia. }
    destruct (Passes.sample propagate lookAt sat obs (sampleTime now k) st) as [st'|st'|].
    + split; [assumption|]. split; [assumption|]. apply Hpush. assumption.
    + apply Hpush. assumption.
    + contradiction.
  - intros t st (_ & _ & Hbefore) _. exact Hbefore.
  - split; [apply loopInvariant_start|]. split; [|constructor].
    exists 0. split; [lia|]. unfold sampleTime. lia.
  - exact Hpos.
  - exact Hfuel.
  - exists ps. split; [exact Hrun|]. intros p Hin.
    rewrite Forall_forall in Hps. specialize (Hps p Hin).
    split; [assumption|]. unfold sampleTime, stepMs in *. lia.
Qed.

(** C1, amended: when the elevation read at the samples is at or above the
    minimum exactly on an interval of 300 seconds that starts inside the
    window and ends before the last sample of the window, the call returns
    exactly one pass; its duration differs from 300 seconds by at most one
    sampling step; and its maximum elevation is the greatest elevation read
    at the samples of the interval. *)
Theorem computePasses_single_pass
  (sat : satrec) (now : Z) (observerLat observerLng observerAlt : Q) (s : Z) :
  now <= s ->
  s + visibleMs < sampleTime now (sampleCount - 1) ->
  visibleExactlyFrom
    (elevationAt propagate lookAt sat
       (observerGdOf degreesToRadians observerLat observerLng observerAlt)) now s ->
  exists p,
    computePasses degreesToRadians propagate lookAt
                  (Some sat) now observerLat observerLng observerAlt = Returned [p]
    /\ Z.abs ((end_ p - start p) - visibleMs) <= stepMs
    /\ (exists k,
          0 <= k < sampleCount
          /\ s <= sampleTime now k <= s + visibleMs
          /\ elevationAt propagate lookAt sat
               (observerGdOf degreesToRadians observerLat observerLng observerAlt)
               (sampleTime now k) = Some (maxEl p))
    /\ (forall k e,
          0 <= k < sampleCount ->
          s <= sampleTime now k <= s + visibleMs ->
          elevationAt propagate lookAt sat
            (observerGdOf degreesToRadians observerLat observerLng observerAlt)
            (sampleTime now k) = Some e ->
          (e <= maxEl p)%Q).
Proof.
  intros Hs Hlast Hprofile. unfold computePasses.
  set (obs := observerGdOf degreesToRadians observerLat observerLng observerAlt) in *.
  set (a := (s - now + 9999) / 10000).
  set (b := (s + 300000 - now) / 10000).
  assert (Ha : 10000 * a - 9999 <= s - now <= 10000 * a).
  { pose proof (Z.div_mod (s - now + 9999) 10000 ltac:(lia)).
    pose proof (Z.mod_pos_bound (s - now + 9999) 10000 ltac:(lia)). subst a. lia. }
  assert (Hb : 10000 * b <= s + 300000 - now <= 10000 * b + 9999).
  { pose proof (Z.div_mod (s + 300000 - now) 10000 ltac:(lia)).
    pose proof (Z.mod_pos_bound (s + 300000 - now) 10000 ltac:(lia)). subst b. lia. }
  clearbody a b.
  unfold visibleExactlyFrom in Hprofile.
  unfold sampleTime, sampleCount in *.
  change (windowMs / stepMs) with 17280 in *.
  change stepMs with 10000 in *. change visibleMs with 300000 in *.
  destruct (sampling_single_run sat obs now a b) as (p & Hrun & Hstart & Hend & Hcul).
  - lia.
  - unfold sampleCount. change (windowMs / stepMs) with 17280. lia.
  - intros k Hk. unfold sampleTime, sampleCount in *.
    change (windowMs / stepMs) with 17280 in *. change stepMs with 10000 in *.
    destruct (Hprofile k Hk) as (e & He & Hiff).
    exists e. split; [assumption|]. rewrite Hiff. lia.
  - unfold sampleTime in *. change stepMs with 10000 in *.
    destruct Hcul as [(i & Hi & Hei & _) Hmax].
    exists p. split; [exact Hrun|]. split; [lia|]. split.
    + exists i. split; [lia|]. split; [lia|assumption].
    + intros k e Hk Hin He. apply (Hmax k e); [lia|assumption].
Qed.

End WithSatelliteJs.

(** The pass of [midProfile]: from 600 s to 900 s, culminating at 750 s. *)
Example midProfile_pass :
  computePasses (fun x => x) midProfile lookOfElevation (Some tt) 0 0 0 0
  = Returned [{| start := 600000; startAz := 0; maxEl := 80 # 1;
                 maxElTime := 750000; end_ := 900000; endAz := 0 |}].
Proof. vm_compute. reflexivity. Qed.

(** Of the many intervals of [waveProfile] the first five are returned, each
    from its first to its last sample. *)
Example waveProfile_passes :
  spans (computePasses (fun x => x) waveProfile lookOfElevation (Some tt) 0 0 0 0)
  = [(100000, 190000); (300000, 390000); (500000, 590000);
     (700000, 790000); (900000, 990000)].
Proof. vm_compute. reflexivity. Qed.

(** Without an element set the call returns at once. *)
Example no_element_set :
  computePasses (fun x => x) waveProfile lookOfElevation None 0 0 0 0 = Returned [].
Proof. reflexivity. Qed.

Lemma midProfile_visible :
  visibleExactlyFrom
    (elevationAt midProfile lookOfElevation tt (observerGdOf (fun x => x) 0 0 0))
    0 600000.
Proof.
  intros k Hk. unfold elevationAt, midProfile, lookOfElevation, sampleTime.
  cbn [option_map elDeg]. eexists. split; [reflexivity|].
  change stepMs with 10000. change visibleMs with 300000.
  unfold MIN_ELEVATION_DEG.
  destruct (Z.leb_spec 600000 (0 + 10000 * k));
    destruct (Z.leb_spec (0 + 10000 * k) 900000); cbn [andb];
    try (split; [intros Hq; exfalso; revert Hq; apply Qlt_not_le; reflexivity|lia]).
  destruct (0 + 10000 * k =? 750000);
    (split; [intros _; lia|intros _; discriminate]).
Qed.

(** Witness of C1 (amended): the profile [midProfile], visible from 600 s to
    900 s after the start of the window. *)
Lemma computePasses_single_pass_witness :
  exists p,
    computePasses (fun x => x) midProfile lookOfElevation (Some tt) 0 0 0 0
    = Returned [p]
    /\ Z.abs ((end_ p - start p) - visibleMs) <= stepMs
    /\ (exists k,
          0 <= k < sampleCount
          /\ 600000 <= sampleTime 0 k <= 600000 + visibleMs
          /\ elevationAt midProfile lookOfElevation tt
               (observerGdOf (fun x => x) 0 0 0) (sampleTime 0 k) = Some (maxEl p))
    /\ (forall k e,
          0 <= k < sampleCount ->
          600000 <= sampleTime 0 k <= 600000 + visibleMs ->
          elevationAt midProfile lookOfElevation tt
            (observerGdOf (fun x => x) 0 0 0) (sampleTime 0 k) = Some e ->
          (e <= maxEl p)%Q).
Proof.
  apply (computePasses_single_pass unit Q (fun x => x) midProfile lookOfElevation
           tt 0 0 0 0 600000).
  - lia.
  - vm_compute. reflexivity.
  - exact midProfile_visible.
Defined.

Lemma lateProfile_visible :
  visibleExactlyFrom
    (elevationAt lateProfile lookOfElevation tt (observerGdOf (fun x => x) 0 0 0))
    0 172490000.
Proof.
  intros k Hk. unfold elevationAt, lateProfile, lookOfElevation, sampleTime.
  cbn [option_map elDeg]. eexists. split; [reflexivity|].
  change stepMs with 10000. change visibleMs with 300000.
  unfold MIN_ELEVATION_DEG.
  destruct (Z.leb_spec 172490000 (0 + 10000 * k));
    destruct (Z.leb_spec (0 + 10000 * k) 172790000); cbn [andb];
    try (split; [intros Hq; exfalso; revert Hq; apply Qlt_not_le; reflexivity|lia]).
  split; [intros _; lia|intros _; discriminate].
Qed.

(** Counterexample to C1 as stated: the profile [lateProfile] is at or above
    the minimum elevation on exactly one interval of 300 seconds inside the
    window, from 172490 s to 172790 s after its start, and the call returns
    no pass: the interval reaches the last sample, so the pass is still open
    when the loop ends. *)
Lemma computePasses_single_pass_fails_at_window_end :
  (0 <= 172490000 /\ 172490000 + visibleMs < 0 + windowMs)
  /\ visibleExactlyFrom
       (elevationAt lateProfile lookOfElevation tt (observerGdOf (fun x => x) 0 0 0))
       0 172490000
  /\ computePasses (fun x => x) lateProfile lookOfElevation (Some tt) 0 0 0 0
     = Returned []
  /\ (forall p,
        computePasses (fun x => x) lateProfile lookOfElevation (Some tt) 0 0 0 0
        <> Returned [p]).
Proof.
  assert (Hrun : computePasses (fun x => x) lateProfile lookOfElevation
                   (Some tt) 0 0 0 0 = Returned [])
    by (vm_compute; reflexivity).
  split; [split; [lia|reflexivity]|]. split; [exact lateProfile_visible|].
  split; [exact Hrun|]. intros p. rewrite Hrun. discriminate.
Qed.

(** Witness of C3: with [lateProfile] no sample from the index 17249 on is
    below the minimum elevation. *)
Lemma computePasses_drops_open_pass_witness :
  exists ps,
    computePasses (fun x => x) lateProfile lookOfElevation (Some tt) 0 0 0 0
    = Returned ps
    /\ forall p, In p ps ->
         end_ p < sampleTime 0 17249
         /\ end_ p < sampleTime 0 (sampleCount - 1).
Proof.
  apply (computePasses_drops_open_pass unit Q (fun x => x) lateProfile lookOfElevation
           tt 0 0 0 0 17249).
  - unfold sampleCount. change (windowMs / stepMs) with 17280. lia.
  - intros k e Hk He.
    assert (Hkw : 0 <= k < sampleCount) by lia.
    destruct (lateProfile_visible k Hkw) as (e' & He' & Hiff).
    rewrite He in He'. injection He' as <-. apply Hiff.
    unfold sampleCount in Hk. change (windowMs / stepMs) with 17280 in Hk.
    unfold sampleTime. change stepMs with 10000. change visibleMs with 300000. lia.
Defined.

End PassFacts.

Module SunFacts.
Import Sun.

Lemma setUTCHours0_truncates (dt : Z) :
  truncatedToUTCMidnight (JsDate.setUTCHours0 dt) dt.
Proof.
  unfold truncatedToUTCMidnight, JsDate.setUTCHours0, JsDate.Day, JsDate.msPerDay.
  split; [exists (dt / 86400000); lia|].
  pose proof (Z.div_mod dt 86400000 ltac:(lia)).
  pose proof (Z.mod_pos_bound dt 86400000 ltac:(lia)). lia.
Qed.

Lemma truncatedToUTCMidnight_unique (d timestamp : Z) :
  truncatedToUTCMidnight d timestamp -> d = JsDate.setUTCHours0 timestamp.
Proof.
  intros [[n ->] Hn]. unfold JsDate.setUTCHours0, JsDate.Day, JsDate.msPerDay.
  rewrite <- (Z.div_unique timestamp 86400000 n (timestamp - n * 86400000)); lia.
Qed.

(** C8: for every timestamp the longitude returned is
    [(dayStartUTC - timestamp) / 86400000 * 360 - 180 - equationOfTime(T) / 4],
    with [dayStartUTC] the timestamp truncated to UTC midnight (there is one)
    and [T] the century fraction of the timestamp, and the declination
    returned is [declination(T)]. *)
Theorem getSunPosition_formula
  (century : Z -> Q) (equationOfTime declination : Q -> Q) (timestamp : Z) :
  (exists dayStartUTC, truncatedToUTCMidnight dayStartUTC timestamp)
  /\ forall dayStartUTC,
       truncatedToUTCMidnight dayStartUTC timestamp ->
       getSunPosition century equationOfTime declination timestamp
       = (specLongitude equationOfTime dayStartUTC timestamp (century timestamp),
          declination (century timestamp)).
Proof.
  split.
  - exists (JsDate.setUTCHours0 timestamp). apply setUTCHours0_truncates.
  - intros d Hd. rewrite (truncatedToUTCMidnight_unique d timestamp Hd). reflexivity.
Qed.

End SunFacts.

Module JsDateFacts.
Import JsDate.

(** The first day of a year follows the first day of the year before by the
    length of that year. *)
Lemma DayFromYear_succ y : DayFromYear (y + 1) = DayFromYear y + DaysInYear y.
Proof.
  unfold DayFromYear, DaysInYear, inLeapYear.
  destruct (y mod 4 =? 0) eqn:E4; destruct (y mod 100 =? 0) eqn:E100;
    destruct (y mod 400 =? 0) eqn:E400; cbn [andb orb negb];
    rewrite ?Z.eqb_eq, ?Z.eqb_neq in *;
    Z.to_euclidean_division_equations; lia.
Qed.

Lemma DayFromYear_estimate y :
  3652425 * (y - 1970) - 20000 <= 10000 * DayFromYear y
  <= 3652425 * (y - 1970) + 20000.
Proof.
  unfold DayFromYear. Z.to_euclidean_division_equations. lia.
Qed.

Lemma DayFromYear_lt y1 y2 : y1 < y2 -> DayFromYear y1 + 365 <= DayFromYear y2.
Proof.
  unfold DayFromYear. intros H. Z.to_euclidean_division_equations. lia.
Qed.

(** [yearFromDay] is the year number of the standard: the year whose days
    include [day]. *)
Lemma yearFromDay_correct day :
  DayFromYear (yearFromDay day) <= day < DayFromYear (yearFromDay day + 1).
Proof.
  unfold yearFromDay.
  set (y := 1970 + day * 10000 / 3652425).
  assert (Hy : 3652425 * (y - 1970) <= day * 10000 < 3652425 * (y - 1970) + 3652425).
  { subst y. Z.to_euclidean_division_equations. lia. }
  clearbody y.
  pose proof (DayFromYear_estimate (y - 1)).
  pose proof (DayFromYear_estimate y).
  pose proof (DayFromYear_estimate (y + 1)).
  pose proof (DayFromYear_estimate (y + 2)).
  destruct (Z.ltb_spec day (DayFromYear y)).
  - replace (y - 1 + 1) with y by lia. lia.
  - destruct (Z.leb_spec (DayFromYear (y + 1)) day).
    + replace (y + 1 + 1) with (y + 2) by lia. lia.
    + lia.
Qed.

Lemma yearFromDay_unique day y :
  DayFromYear y <= day < DayFromYear (y + 1) -> yearFromDay day = y.
Proof.
  intros H. pose proof (yearFromDay_correct day) as H'.
  destruct (Z.lt_trichotomy (yearFromDay day) y) as [Hlt|[Heq|Hgt]]; [|assumption|].
  - destruct (Z.eq_dec (yearFromDay day + 1) y) as [E|E].
    + rewrite E in H'. lia.
    + pose proof (DayFromYear_lt (yearFromDay day + 1) y ltac:(lia)). lia.
  - destruct (Z.eq_dec (y + 1) (yearFromDay day)) as [E|E].
    + rewrite <- E in H'. lia.
    + pose proof (DayFromYear_lt (y + 1) (yearFromDay day) ltac:(lia)). lia.
Qed.

Lemma DaysInYear_cases y : DaysInYear y = 365 + (if inLeapYear y then 1 else 0).
Proof. unfold DaysInYear. destruct (inLeapYear y); reflexivity. Qed.

Lemma monthStart_january leap : monthStart leap 0 = 0.
Proof. reflexivity. Qed.

Lemma monthStart_december leap :
  monthStart leap 11 = 334 + (if leap then 1 else 0).
Proof. reflexivity. Qed.

(** The date built from a four-digit year and a month index in range. *)
Lemma newDate_in_year year monthIndex day :
  99 < year -> 0 <= monthIndex < 12 ->
  newDate year monthIndex day
  = msPerDay * (DayFromYear year + monthStart (inLeapYear year) monthIndex + day - 1).
Proof.
  intros Hy Hm. unfold newDate, MakeDay.
  replace ((0 <=? year) && (year <=? 99)) with false
    by (symmetry; apply andb_false_iff; right; apply Z.leb_gt; lia).
  rewrite Z.div_small, Z.mod_small, Z.add_0_r by lia. reflexivity.
Qed.

(** The year and the month of an instant given by its day within a year. *)
Lemma instant_in_year year off ms :
  0 <= off < DaysInYear year -> 0 <= ms < msPerDay ->
  getFullYear (msPerDay * (DayFromYear year + off) + ms) = year
  /\ getMonth (msPerDay * (DayFromYear year + off) + ms)
     = monthFromDayInYear (inLeapYear year) off.
Proof.
  intros Hoff Hms. unfold getFullYear, getMonth.
  assert (Hday : Day (msPerDay * (DayFromYear year + off) + ms) = DayFromYear year + off).
  { unfold Day, msPerDay in *. symmetry.
    apply (Z.div_unique _ _ _ ms); lia. }
  rewrite Hday.
  assert (Hyear : yearFromDay (DayFromYear year + off) = year).
  { apply yearFromDay_unique. rewrite DayFromYear_succ. lia. }
  rewrite Hyear. split; [reflexivity|]. f_equal. lia.
Qed.

End JsDateFacts.

Module ShowerFacts.
Import Stdlib.Strings.String.
Import JsDate JsDateFacts Showers.

(** On 2 November 2026 at 01:00 the Orionids are active and four showers
    start within 60 days. *)
Example calendar_2026_11_02 :
  map (fun a => name (activeRow a))
      (active (getActiveAndUpcomingShowers (newDate 2026 10 2 + 3600000)))
  = ["Orionids"%string]
  /\ map (fun u => (name (upcomingRow u), daysUntilStart u))
         (upcoming (getActiveAndUpcomingShowers (newDate 2026 10 2 + 3600000)))
     = [("Quadrantids"%string, 56); ("Leonids"%string, 4);
        ("Geminids"%string, 32); ("Ursids"%string, 45)].
Proof. split; vm_compute; reflexivity. Qed.

(** The end date is the midnight that starts January 12: one hour later
    the shower is no longer active. *)
Example quadrantids_over_on_january_12 :
  active (getActiveAndUpcomingShowers (newDate 2026 0 12 + 3600000)) = [].
Proof. vm_compute. reflexivity. Qed.

Lemma quadrantids_dates year :
  parseMMDD (start quadrantids) year = Some (newDate year 11 28)
  /\ parseMMDD (end_ quadrantids) year = Some (newDate year 0 12)
  /\ parseMMDD (peak quadrantids) year = Some (newDate year 0 3).
Proof. repeat split. Qed.

(** What [forEach] does with a shower that is active. *)
Lemma visit_active now acc shower s e pk :
  anchored shower now = (Some s, Some e, pk) -> s <= now <= e ->
  In shower (map activeRow (active (visit now acc shower))).
Proof.
  intros Hanch [Hs He]. unfold visit. rewrite Hanch. cbn [leDate].
  rewrite (proj2 (Z.leb_le s now) Hs), (proj2 (Z.leb_le now e) He). cbn [andb active].
  rewrite map_app. apply in_or_app. right. left. reflexivity.
Qed.

Lemma visit_keeps_active now acc shower x :
  In x (map activeRow (active acc)) ->
  In x (map activeRow (active (visit now acc shower))).
Proof.
  intros Hin. unfold visit.
  destruct (anchored shower now) as [[s e] pk].
  destruct (leDate s (Some now) && leDate (Some now) e).
  - cbn [active]. rewrite map_app. apply in_or_app. left. exact Hin.
  - destruct (option_map _ s) as [d|]; [|exact Hin].
    destruct ((0 <? d) && (d <=? 60)); exact Hin.
Qed.

Lemma forEach_keeps_active now showers : forall acc x,
  In x (map activeRow (active acc)) ->
  In x (map activeRow (active (fold_left (visit now) showers acc))).
Proof.
  induction showers as [|shower showers IH]; intros acc x Hin; [exact Hin|].
  cbn [fold_left]. apply IH. apply visit_keeps_active. exact Hin.
Qed.

(** A shower of the table is reported active whenever [now] is within its
    anchored dates. *)
Lemma forEach_reports_active now shower s e pk : forall showers acc,
  In shower showers ->
  anchored shower now = (Some s, Some e, pk) -> s <= now <= e ->
  In shower (map activeRow (active (fold_left (visit now) showers acc))).
Proof.
  induction showers as [|row showers IH]; intros acc Hrow Hanch Hin; [destruct Hrow|].
  change (fold_left (visit now) (row :: showers) acc)
    with (fold_left (visit now) showers (visit now acc row)).
  destruct Hrow as [->|Hrow].
  - apply forEach_keeps_active. apply (visit_active now acc shower s e pk); assumption.
  - apply IH; assumption.
Qed.

Lemma quadrantids_reported now s e pk :
  anchored quadrantids now = (Some s, Some e, pk) -> s <= now <= e ->
  In quadrantids (map activeRow (active (getActiveAndUpcomingShowers now))).
Proof.
  intros Hanch Hin. unfold getActiveAndUpcomingShowers.
  apply (forEach_reports_active now quadrantids s e pk); [|assumption|assumption].
  left. reflexivity.
Qed.

(** A shower that is active is not reported upcoming. *)
Lemma visit_keeps_upcoming now acc shower x s e pk :
  anchored x now = (Some s, Some e, pk) -> s <= now <= e ->
  ~ In x (map upcomingRow (upcoming acc)) ->
  ~ In x (map upcomingRow (upcoming (visit now acc shower))).
Proof.
  intros Hanch [Hs He] Hacc. unfold visit.
  destruct (anchored shower now) as [[s' e'] pk'] eqn:Hshower.
  destruct (leDate s' (Some now) && leDate (Some now) e') eqn:Hactive; [exact Hacc|].
  destruct (option_map _ s') as [d|]; [|exact Hacc].
  destruct ((0 <? d) && (d <=? 60)); [|exact Hacc].
  cbn [upcoming]. rewrite map_app. intros Hin. apply in_app_or in Hin.
  destruct Hin as [Hin|[<-|[]]]; [exact (Hacc Hin)|].
  cbn [upcomingRow] in Hanch. rewrite Hanch in Hshower.
  injection Hshower as <- <- <-. cbn [leDate] in Hactive.
  rewrite (proj2 (Z.leb_le s now) Hs), (proj2 (Z.leb_le now e) He) in Hactive.
  discriminate.
Qed.

Lemma forEach_keeps_upcoming now x s e pk showers : forall acc,
  anchored x now = (Some s, Some e, pk) -> s <= now <= e ->
  ~ In x (map upcomingRow (upcoming acc)) ->
  ~ In x (map upcomingRow (upcoming (fold_left (visit now) showers acc))).
Proof.
  induction showers as [|row showers IH]; intros acc Hanch Hin Hacc; [exact Hacc|].
  change (fold_left (visit now) (row :: showers) acc)
    with (fold_left (visit now) showers (visit now acc row)).
  apply IH; [assumption|assumption|].
  apply (visit_keeps_upcoming now acc row x s e pk); assumption.
Qed.

Lemma quadrantids_not_upcoming now s e pk :
  anchored quadrantids now = (Some s, Some e, pk) -> s <= now <= e ->
  ~ In quadrantids (map upcomingRow (upcoming (getActiveAndUpcomingShowers now))).
Proof.
  intros Hanch Hin. unfold getActiveAndUpcomingShowers.
  apply (forEach_keeps_upcoming now quadrantids s e pk); [assumption|assumption|].
  intros [].
Qed.

(** C7: at any instant of a January 5 the dates of the Quadrantids are
    anchored with the start in the previous year, at any instant of a
    December 29 with the end and the peak in the next year, and in both
    cases the shower is classified as active. Years are those the [Date]
    constructor reads as written (after 100). *)
Theorem quadrantids_active_across_year_boundary (Y ms : Z) :
  100 < Y -> 0 <= ms < msPerDay ->
  (anchored quadrantids (newDate Y 0 5 + ms)
   = (Some (newDate (Y - 1) 11 28), Some (newDate Y 0 12), Some (newDate Y 0 3))
   /\ reportedActive quadrantids (newDate Y 0 5 + ms))
  /\ (anchored quadrantids (newDate Y 11 29 + ms)
      = (Some (newDate Y 11 28), Some (newDate (Y + 1) 0 12),
         Some (newDate (Y + 1) 0 3))
      /\ reportedActive quadrantids (newDate Y 11 29 + ms)).
Proof.
  intros HY Hms.
  pose proof (DayFromYear_succ (Y - 1)) as Hprev.
  replace (Y - 1 + 1) with Y in Hprev by lia. rewrite DaysInYear_cases in Hprev.
  pose proof (DayFromYear_succ Y) as Hnext. rewrite DaysInYear_cases in Hnext.
  pose proof (DaysInYear_cases Y) as Hlen.
  assert (Hwrap : ltDate (Some (newDate Y 0 12)) (Some (newDate Y 11 28)) = true).
  { cbn [ltDate]. apply Z.ltb_lt. rewrite !newDate_in_year by lia.
    rewrite monthStart_january, monthStart_december. unfold msPerDay.
    destruct (inLeapYear Y); lia. }
  split.
  - assert (Hnow : newDate Y 0 5 + ms = msPerDay * (DayFromYear Y + 4) + ms).
    { rewrite newDate_in_year by lia. rewrite monthStart_january.
      unfold msPerDay. lia. }
    destruct (instant_in_year Y 4 ms) as [Hyear Hmonth];
      [rewrite Hlen; destruct (inLeapYear Y); lia|assumption|].
    assert (Hanch : anchored quadrantids (newDate Y 0 5 + ms)
                    = (Some (newDate (Y - 1) 11 28), Some (newDate Y 0 12),
                       Some (newDate Y 0 3))).
    { unfold anchored. rewrite Hnow, Hyear, Hmonth.
      destruct (quadrantids_dates Y) as (-> & -> & ->).
      destruct (quadrantids_dates (Y - 1)) as (-> & _ & _).
      rewrite Hwrap.
      replace (monthFromDayInYear (inLeapYear Y) 4 <? 6) with true
        by (destruct (inLeapYear Y); reflexivity).
      reflexivity. }
    assert (Hin : newDate (Y - 1) 11 28 <= newDate Y 0 5 + ms <= newDate Y 0 12).
    { rewrite !newDate_in_year by lia.
      rewrite monthStart_january, monthStart_december. unfold msPerDay in *.
      destruct (inLeapYear (Y - 1)); destruct (inLeapYear Y); lia. }
    split; [exact Hanch|]. split.
    + apply (quadrantids_reported _ _ _ _ Hanch Hin).
    + apply (quadrantids_not_upcoming _ _ _ _ Hanch Hin).
  - assert (Hnow : newDate Y 11 29 + ms
                   = msPerDay * (DayFromYear Y
                                 + (362 + if inLeapYear Y then 1 else 0)) + ms).
    { rewrite newDate_in_year by lia. rewrite monthStart_december.
      unfold msPerDay. lia. }
    destruct (instant_in_year Y (362 + if inLeapYear Y then 1 else 0) ms)
      as [Hyear Hmonth]; [rewrite Hlen; destruct (inLeapYear Y); lia|assumption|].
    assert (Hanch : anchored quadrantids (newDate Y 11 29 + ms)
                    = (Some (newDate Y 11 28), Some (newDate (Y + 1) 0 12),
                       Some (newDate (Y + 1) 0 3))).
    { unfold anchored. rewrite Hnow, Hyear, Hmonth.
      destruct (quadrantids_dates Y) as (-> & -> & ->).
      destruct (quadrantids_dates (Y + 1)) as (_ & -> & ->).
      rewrite Hwrap.
      replace (monthFromDayInYear (inLeapYear Y)
                 (362 + (if inLeapYear Y then 1 else 0)) <? 6) with false
        by (destruct (inLeapYear Y); reflexivity).
      reflexivity. }
    assert (Hin : newDate Y 11 28 <= newDate Y 11 29 + ms <= newDate (Y + 1) 0 12).
    { rewrite !newDate_in_year by lia.
      rewrite monthStart_january, monthStart_december. unfold msPerDay in *.
      destruct (inLeapYear Y); destruct (inLeapYear (Y + 1)); lia. }
    split; [exact Hanch|]. split.
    + apply (quadrantids_reported _ _ _ _ Hanch Hin).
    + apply (quadrantids_not_upcoming _ _ _ _ Hanch Hin).
Qed.

(** Witness of C7: one hour past midnight on January 5 and on December 29
    of 2026. *)
Lemma quadrantids_active_across_year_boundary_witness :
  (anchored quadrantids (newDate 2026 0 5 + 3600000)
   = (Some (newDate (2026 - 1) 11 28), Some (newDate 2026 0 12),
      Some (newDate 2026 0 3))
   /\ reportedActive quadrantids (newDate 2026 0 5 + 3600000))
  /\ (anchored quadrantids (newDate 2026 11 29 + 3600000)
      = (Some (newDate 2026 11 28), Some (newDate (2026 + 1) 0 12),
         Some (newDate (2026 + 1) 0 3))
      /\ reportedActive quadrantids (newDate 2026 11 29 + 3600000)).
Proof.
  apply (quadrantids_active_across_year_boundary 2026 3600000).
  - lia.
  - unfold msPerDay. lia.
Defined.

End ShowerFacts.

Module PassRunFacts.
Import Passes PassRuns PassFacts.

Section WithSatelliteJs.

Variables satrec position : Type.
Variable degreesToRadians : Q -> Q.
Variable propagate : satrec -> Z -> option position.
Variable lookAt : ObserverGd -> position -> Z -> Look.

Section Loop.

Variable sat : satrec.
Variable observerGd : ObserverGd.

Local Abbreviation sample := (sample propagate lookAt sat observerGd).
Local Abbreviation sampling := (fun fuel => sampling propagate lookAt fuel sat observerGd).
Local Abbreviation elevationAt := (elevationAt propagate lookAt sat observerGd).

Lemma sample_none t st : elevationAt t = None -> sample t st = Continue st.
Proof.
  unfold Passes.sample, Passes.elevationAt.
  destruct (propagate sat t); [discriminate|reflexivity].
Qed.

Lemma closed_later now t t' (ps : list Pass) :
  t <= t' ->
  Forall (fun p => closedRun elevationAt now p /\ end_ p + 2 * stepMs <= t) ps ->
  Forall (fun p => closedRun elevationAt now p /\ end_ p + 2 * stepMs <= t') ps.
Proof.
  intros Hle. apply Forall_impl. intros p [Hp He]. split; [assumption|lia].
Qed.

(** Samples without a position after the end of a run do not change what
    the run culminates at. *)
Lemma culminates_gap now a b b' cp :
  b <= b' ->
  (forall j, b < j <= b' -> elevationAt (sampleTime now j) = None) ->
  culminates elevationAt now a b cp -> culminates elevationAt now a b' cp.
Proof.
  intros Hbb Hgap [(i & Hi & Hei & Hti) Hmax]. split.
  - exists i. split; [lia|]. split; assumption.
  - intros j e Hj He. destruct (Z_le_gt_dec j b) as [Hjb|Hjb].
    + apply (Hmax j e); [lia|assumption].
    + rewrite Hgap in He by lia. discriminate.
Qed.

Lemma sample_keeps_runs now t st :
  runInvariant elevationAt now t st -> t < now + windowMs ->
  match sample t st with
  | Continue st' => runInvariant elevationAt now (t + stepMs) st'
  | Break st' => runResult elevationAt now (passes st')
  | Fault => False
  end.
Proof.
  intros (k & Hk & -> & Hclosed & Hsorted & Hcur) Ht.
  pose proof (sample_index_in_window now k Hk Ht) as Hkw.
  pose proof (sampleTime_next now k) as Hnext.
  pose proof stepMs_pos as Hstep.
  assert (Hlater : Forall (fun p => closedRun elevationAt now p
                                    /\ end_ p + 2 * stepMs <= sampleTime now k + stepMs)
                          (passes st))
    by (apply (closed_later now (sampleTime now k)); [lia|assumption]).
  destruct (elevationAt (sampleTime now k)) as [e|] eqn:He.
  - destruct (Qlt_le_dec e MIN_ELEVATION_DEG) as [Hlow|Hhigh].
    + rewrite (sample_low _ _ _ _ _ _ _ _ e He Hlow).
      destruct (currentPass st) as [cp|] eqn:Hcp.
      * destruct Hcur as (Hin & _ & Hap & a & b & Hrun & Hb & _). rewrite Hin.
        assert (Hcp_closed : closedRun elevationAt now cp) by (exists a, b; split; [assumption|lia]).
        assert (Hcp_end : end_ cp + 2 * stepMs <= sampleTime now k + stepMs).
        { destruct Hrun as (_ & _ & (_ & -> & _) & _). unfold sampleTime, stepMs. lia. }
        assert (Hsorted' : StronglySorted apart (passes st ++ [cp]))
          by (apply StronglySorted_snoc; assumption).
        assert (Hall : Forall (fun p => closedRun elevationAt now p
                                        /\ end_ p + 2 * stepMs <= sampleTime now k + stepMs)
                              (passes st ++ [cp])).
        { apply Forall_app. split; [assumption|].
          constructor; [split; assumption|constructor]. }
        destruct (5 <=? length (passes st ++ [cp]))%nat.
        -- cbn [passes]. split; [|assumption].
           revert Hall. apply Forall_impl. intros p [Hp _]. exact Hp.
        -- exists (k + 1). split; [lia|]. split; [lia|]. cbn [passes currentPass inPass].
           split; [assumption|]. split; [assumption|reflexivity].
      * rewrite Hcur. exists (k + 1). split; [lia|]. split; [lia|].
        split; [assumption|]. split; [assumption|]. rewrite Hcp. assumption.
    + destruct (sample_high _ _ _ _ _ _ (sampleTime now k) st e He Hhigh) as (az & ->).
      destruct (currentPass st) as [cp|] eqn:Hcp.
      * destruct Hcur as (Hin & Hmax & Hap & a & b & Hrun & Hb & Hgap). rewrite Hin, Hmax.
        destruct Hrun as (Ha & Hab & (Hs & Hend & Hcul) & Hvis & Hfirst & Hlast).
        exists (k + 1). split; [lia|]. split; [lia|]. cbn [passes currentPass inPass maxEl_run].
        split; [assumption|]. split; [assumption|].
        split; [reflexivity|]. split; [reflexivity|]. split.
        { revert Hap. apply Forall_impl. intros p Hp. exact Hp. }
        exists a, k. split; [|split; [lia|intros j Hj; lia]].
        split; [assumption|]. split; [lia|]. split.
        { split; [exact Hs|]. split; [reflexivity|].
          apply culminates_next; [lia|assumption|].
          apply (culminates_gap now a b (k - 1) cp); [lia| |assumption].
          intros j Hj. apply Hgap. lia. }
        split.
        { intros j e' Hj He'. destruct (Z.eq_dec j k) as [->|Hne].
          - rewrite He in He'. injection He' as <-. assumption.
          - destruct (Z_le_gt_dec j b) as [Hjb|Hjb].
            + apply (Hvis j e'); [lia|assumption].
            + rewrite Hgap in He' by lia. discriminate. }
        split; [assumption|]. exists e. assumption.
      * rewrite Hcur. exists (k + 1). split; [lia|]. split; [lia|].
        cbn [passes currentPass inPass maxEl_run].
        split; [assumption|]. split; [assumption|].
        split; [reflexivity|]. split; [reflexivity|]. split.
        { revert Hclosed. apply Forall_impl. intros p [_ Hp].
          unfold apart. cbn [start]. lia. }
        exists k, k. split; [|split; [lia|intros j Hj; lia]].
        split; [assumption|]. split; [lia|]. split.
        { split; [reflexivity|]. split; [reflexivity|]. split.
          - exists k. split; [lia|]. split; [assumption|reflexivity].
          - intros j e' Hj He'. replace j with k in He' by lia.
            rewrite He in He'. injection He' as <-. apply Qle_refl. }
        split.
        { intros j e' Hj He'. replace j with k in He' by lia.
          rewrite He in He'. injection He' as <-. assumption. }
        split; exists e; assumption.
  - rewrite (sample_none _ _ He). exists (k + 1). split; [lia|]. split; [lia|].
    split; [assumption|]. split; [assumption|].
    destruct (currentPass st) as [cp|]; [|assumption].
    destruct Hcur as (Hin & Hmax & Hap & a & b & Hrun & Hb & Hgap).
    split; [assumption|]. split; [assumption|]. split; [assumption|].
    exists a, b. split; [assumption|]. split; [lia|].
    intros j Hj. destruct (Z.eq_dec j k) as [->|Hne]; [assumption|apply Hgap; lia].
Qed.

(** The loop returns passes that are runs of samples, two steps apart. *)
Lemma sampling_runs now :
  exists ps,
    sampling fuelOfWindow now (now + windowMs) loopStart = Returned ps
    /\ runResult elevationAt now ps.
Proof.
  destruct (fuelOfWindow_enough now) as [Hpos Hfuel].
  apply (sampling_rule _ _ propagate lookAt sat observerGd
           (runInvariant elevationAt now) (runResult elevationAt now) (now + windowMs)).
  - intros t st HI Ht. apply sample_keeps_runs; assumption.
  - intros t st (k & _ & _ & Hclosed & Hsorted & _) _. split; [|assumption].
    revert Hclosed. apply Forall_impl. intros p [Hp _]. exact Hp.
  - exists 0. split; [lia|]. split; [unfold sampleTime; lia|]. cbn.
    split; [constructor|]. split; [constructor|reflexivity].
  - exact Hpos.
  - exact Hfuel.
Qed.

End Loop.

(** X1: every pass returned is a run of samples of the window. It starts and
    ends at samples that have an elevation, the last of them before the
    last sample of the window; no elevation read from its start to its end
    is below the minimum or above its [maxEl]; and its [maxEl] is the
    elevation read at [maxElTime], a sample of the run. *)
Theorem computePasses_passes_are_runs
  (sat : satrec) (now : Z) (observerLat observerLng observerAlt : Q) :
  exists ps,
    computePasses degreesToRadians propagate lookAt
                  (Some sat) now observerLat observerLng observerAlt = Returned ps
    /\ forall p, In p ps ->
       exists a b,
         (0 <= a /\ a <= b /\ b < sampleCount - 1)
         /\ start p = sampleTime now a /\ end_ p = sampleTime now b
         /\ (forall j e,
               a <= j <= b ->
               elevationAt propagate lookAt sat
                 (observerGdOf degreesToRadians observerLat observerLng observerAlt)
                 (sampleTime now j) = Some e ->
               (MIN_ELEVATION_DEG <= e)%Q /\ (e <= maxEl p)%Q)
         /\ (exists i,
               a <= i <= b /\ maxElTime p = sampleTime now i
               /\ elevationAt propagate lookAt sat
                    (observerGdOf degreesToRadians observerLat observerLng observerAlt)
                    (sampleTime now i) = Some (maxEl p))
         /\ elevationAt propagate lookAt sat
              (observerGdOf degreesToRadians observerLat observerLng observerAlt)
              (sampleTime now a) <> None
         /\ elevationAt propagate lookAt sat
              (observerGdOf degreesToRadians observerLat observerLng observerAlt)
              (sampleTime now b) <> None.
Proof.
  unfold computePasses.
  set (obs := observerGdOf degreesToRadians observerLat observerLng observerAlt).
  destruct (sampling_runs sat obs now) as (ps & Hrun & Hclosed & _).
  exists ps. split; [exact Hrun|]. intros p Hin.
  rewrite Forall_forall in Hclosed.
  destruct (Hclosed p Hin)
    as (a & b & (Ha & Hab & (Hs & He & (i & Hi & Hei & Hti) & Hmax)
                 & Hvis & (e1 & Hfirst) & (e2 & Hlast)) & Hb).
  exists a, b. split; [repeat split; assumption|].
  split; [assumption|]. split; [assumption|]. split.
  - intros j e Hj Hje. split; [apply (Hvis j e)|apply (Hmax j e)]; assumption.
  - split; [exists i; repeat split; try assumption; lia|].
    split; congruence.
Qed.

(** The passes returned, as the cards need them. *)
Lemma computePasses_passes_are_runs_for_cards
  (sat : satrec) (now : Z) (observerLat observerLng observerAlt : Q) :
  exists ps,
    computePasses degreesToRadians propagate lookAt
                  (Some sat) now observerLat observerLng observerAlt = Returned ps
    /\ forall p, In p ps ->
       exists a b,
         (0 <= a /\ a <= b /\ b < sampleCount - 1)
         /\ start p = sampleTime now a /\ end_ p = sampleTime now b
         /\ (inject_Z 10 <= maxEl p)%Q.
Proof.
  unfold computePasses.
  set (obs := observerGdOf degreesToRadians observerLat observerLng observerAlt).
  destruct (sampling_runs sat obs now) as (ps & Hrun & Hclosed & _).
  exists ps. split; [exact Hrun|]. intros p Hin.
  rewrite Forall_forall in Hclosed.
  destruct (Hclosed p Hin)
    as (a & b & (Ha & Hab & (Hs & He & (i & Hi & Hei & Hti) & Hmax)
                 & Hvis & _) & Hb).
  exists a, b. split; [repeat split; assumption|].
  split; [assumption|]. split; [assumption|].
  apply (Hvis i (maxEl p)); assumption.
Qed.

(** X2: between two passes returned there is a sample: a pass starts at
    least two sampling steps (20 seconds) after the end of every pass
    before it in the list. *)
Theorem computePasses_passes_apart
  (tleData : option satrec) (now : Z) (observerLat observerLng observerAlt : Q) :
  exists ps,
    computePasses degreesToRadians propagate lookAt
                  tleData now observerLat observerLng observerAlt = Returned ps
    /\ StronglySorted (fun p q => end_ p + 20000 <= start q) ps.
Proof.
  unfold computePasses. destruct tleData as [sat|].
  - destruct (sampling_runs sat
                (observerGdOf degreesToRadians observerLat observerLng observerAlt) now)
      as (ps & Hrun & _ & Hsorted).
    exists ps. split; [exact Hrun|exact Hsorted].
  - exists []. split; [reflexivity|constructor].
Qed.

End WithSatelliteJs.

End PassRunFacts.

Module PassCardFacts.
Import Passes PassCards.

Lemma roundDiv_steps n : roundDiv (10000 * n) 1000 = 10 * n.
Proof.
  unfold roundDiv. symmetry. apply (Z.div_unique _ _ _ 1000); lia.
Qed.

Lemma roundQ_at_least (z : Z) (x : Q) : (inject_Z z <= x)%Q -> z <= roundQ x.
Proof.
  intros Hle. unfold roundQ. rewrite <- (Qfloor_Z z). apply Qfloor_resp_le.
  apply Qle_trans with x; [assumption|].
  rewrite <- (Qplus_0_r x) at 1. apply Qplus_le_r. discriminate.
Qed.

(** X3: the number in the time label is in range. The label is
    [HAPPENING NOW] exactly when the pass started before the clock reading;
    a number of minutes is from 0 to 60, and 0 only for a pass that starts
    at the clock reading; a number of hours is from 1 to 24; a number of
    days is 1 or more. *)
Theorem timeLabelOf_in_range (diffMs : Z) :
  match timeLabelOf diffMs with
  | HAPPENING_NOW => diffMs < 0
  | IN_MIN n => 0 <= diffMs /\ 0 <= n <= 60 /\ (n = 0 <-> diffMs = 0)
  | IN_HRS n => 0 <= diffMs /\ 1 <= n <= 24
  | IN_DAYS n => 0 <= diffMs /\ 1 <= n
  end.
Proof.
  unfold timeLabelOf, Showers.ceilDiv, roundDiv.
  destruct (Z.ltb_spec diffMs 0); [assumption|].
  destruct (Z.ltb_spec diffMs 3600000).
  - split; [assumption|]. Z.to_euclidean_division_equations. lia.
  - destruct (Z.ltb_spec diffMs 86400000);
      (split; [assumption|]); Z.to_euclidean_division_equations; lia.
Qed.

Lemma timeLabelOf_days diffMs n :
  timeLabelOf diffMs = IN_DAYS n -> n = roundDiv diffMs 86400000.
Proof.
  unfold timeLabelOf.
  destruct (diffMs <? 0); [discriminate|].
  destruct (diffMs <? 3600000); [discriminate|].
  destruct (diffMs <? 86400000); [discriminate|].
  intros [= <-]. reflexivity.
Qed.

Section WithSatelliteJs.

Variables satrec position : Type.
Variable degreesToRadians : Q -> Q.
Variable propagate : satrec -> Z -> option position.
Variable lookAt : ObserverGd -> position -> Z -> Look.

(** X4: on the card of a pass returned by [computePasses] the duration
    is a whole number of 10-second steps (possibly none), less than the 48
    hours of the window, the elevation shown is 10 degrees or more, and,
    read at or after the time of the computation, the start is never
    announced more than 2 days ahead. *)
Theorem formatPass_of_computed_pass
  (tleData : option satrec) (now : Z) (observerLat observerLng observerAlt : Q) :
  exists ps,
    computePasses degreesToRadians propagate lookAt
                  tleData now observerLat observerLng observerAlt = Returned ps
    /\ forall p clock index,
         In p ps ->
         (exists n, 0 <= n < sampleCount
                    /\ duration (formatPass clock p index) = 10 * n)
         /\ 10 <= maxElFormatted (formatPass clock p index)
         /\ (now <= clock ->
             forall n, timeLabel (formatPass clock p index) = IN_DAYS n -> n <= 2).
Proof.
  destruct tleData as [sat|].
  - destruct (PassRunFacts.computePasses_passes_are_runs_for_cards
                satrec position degreesToRadians propagate lookAt
                sat now observerLat observerLng observerAlt)
      as (ps & Hrun & Hps).
    exists ps. split; [exact Hrun|]. intros p clock index Hin.
    destruct (Hps p Hin) as (a & b & (Ha & Hab & Hb) & Hs & He & Hmin).
    unfold formatPass. cbn [duration maxElFormatted timeLabel].
    unfold sampleCount in *. change (windowMs / stepMs) with 17280 in *.
    split; [|split].
    + exists (b - a). split; [lia|].
      rewrite Hs, He. unfold sampleTime, stepMs.
      replace (now + 10000 * b - (now + 10000 * a)) with (10000 * (b - a)) by lia.
      apply roundDiv_steps.
    + apply roundQ_at_least. exact Hmin.
    + intros Hclock n Hlabel. apply timeLabelOf_days in Hlabel. subst n.
      rewrite Hs. unfold roundDiv, sampleTime, stepMs.
      Z.to_euclidean_division_equations. lia.
  - exists []. split; [reflexivity|]. intros p clock index [].
Qed.

End WithSatelliteJs.

End PassCardFacts.

Module ShowerRuleFacts.
Import Stdlib.Strings.String.
Import JsDate JsDateFacts Showers ShowerRules ShowerFacts.

(** What [forEach] adds to the two lists, for any table. *)
Lemma forEach_filters now showers : forall acc,
  map activeRow (active (fold_left (visit now) showers acc))
  = map activeRow (active acc) ++ filter (isActiveAt now) showers
  /\ map upcomingRow (upcoming (fold_left (visit now) showers acc))
     = map upcomingRow (upcoming acc) ++ filter (isUpcomingAt now) showers.
Proof.
  induction showers as [|row showers IH]; intros acc.
  - cbn [fold_left filter]. rewrite !app_nil_r. split; reflexivity.
  - change (fold_left (visit now) (row :: showers) acc)
      with (fold_left (visit now) showers (visit now acc row)).
    destruct (IH (visit now acc row)) as [-> ->]. cbn [filter].
    unfold visit, isUpcomingAt, daysUntilStartAt, isActiveAt.
    destruct (anchored row now) as [[s e] pk].
    destruct (leDate s (Some now) && leDate (Some now) e); cbn [negb andb active upcoming].
    + rewrite map_app, <- app_assoc. split; reflexivity.
    + destruct (option_map _ s) as [d|]; [|split; reflexivity].
      destruct ((0 <? d) && (d <=? 60)); [|split; reflexivity].
      cbn [active upcoming]. rewrite map_app, <- app_assoc. split; reflexivity.
Qed.

Lemma forEach_from_empty now showers :
  map activeRow
      (active (fold_left (visit now) showers {| active := []; upcoming := [] |}))
  = filter (isActiveAt now) showers
  /\ map upcomingRow
         (upcoming (fold_left (visit now) showers {| active := []; upcoming := [] |}))
     = filter (isUpcomingAt now) showers.
Proof.
  destruct (forEach_filters now showers {| active := []; upcoming := [] |})
    as [Hactive Hupcoming].
  split; assumption.
Qed.

(** The rows of the two lists of the calendar. *)
Lemma calendar_rows (now : Z) :
  map activeRow (active (getActiveAndUpcomingShowers now))
  = filter (isActiveAt now) METEOR_SHOWERS
  /\ map upcomingRow (upcoming (getActiveAndUpcomingShowers now))
     = filter (isUpcomingAt now) METEOR_SHOWERS.
Proof.
  unfold getActiveAndUpcomingShowers. apply forEach_from_empty.
Qed.

(** No shower is in both lists. *)
Lemma active_not_upcoming (now : Z) (shower : Shower) :
  In shower (map activeRow (active (getActiveAndUpcomingShowers now))) ->
  ~ In shower (map upcomingRow (upcoming (getActiveAndUpcomingShowers now))).
Proof.
  destruct (calendar_rows now) as [-> ->].
  intros Hin Hup. apply filter_In in Hin. apply filter_In in Hup.
  destruct Hin as [_ Hin]. destruct Hup as [_ Hup].
  unfold isUpcomingAt in Hup. rewrite Hin in Hup. discriminate.
Qed.

(** X5: the two lists follow the order of the table: the active showers are
    the rows of the table that are active, in table order, the upcoming
    ones the rows that are not active and start within 1 to 60 days, in
    table order; no shower is in both lists. *)
Theorem calendar_lists_follow_table (now : Z) :
  map activeRow (active (getActiveAndUpcomingShowers now))
  = filter (isActiveAt now) METEOR_SHOWERS
  /\ map upcomingRow (upcoming (getActiveAndUpcomingShowers now))
     = filter (isUpcomingAt now) METEOR_SHOWERS
  /\ forall shower,
       In shower (map activeRow (active (getActiveAndUpcomingShowers now))) ->
       ~ In shower (map upcomingRow (upcoming (getActiveAndUpcomingShowers now))).
Proof.
  unfold getActiveAndUpcomingShowers.
  destruct (forEach_from_empty now METEOR_SHOWERS) as [Hactive Hupcoming].
  rewrite Hactive, Hupcoming. split; [reflexivity|]. split; [reflexivity|].
  intros shower Hin Hup. apply filter_In in Hin. apply filter_In in Hup.
  destruct Hin as [_ Hin]. destruct Hup as [_ Hup].
  unfold isUpcomingAt in Hup. rewrite Hin in Hup. discriminate.
Qed.

Lemma visit_entries now acc shower :
  Forall (fun a => isPeak a = true ->
                   daysUntilPeak a = Some 0 \/ daysUntilPeak a = Some 1) (active acc) ->
  Forall (fun u => 1 <= daysUntilStart u <= 60) (upcoming acc) ->
  Forall (fun a => isPeak a = true ->
                   daysUntilPeak a = Some 0 \/ daysUntilPeak a = Some 1)
         (active (visit now acc shower))
  /\ Forall (fun u => 1 <= daysUntilStart u <= 60) (upcoming (visit now acc shower)).
Proof.
  intros Hact Hup. unfold visit.
  destruct (anchored shower now) as [[s e] pk].
  destruct (leDate s (Some now) && leDate (Some now) e).
  - cbn [active upcoming]. split; [|assumption].
    apply Forall_app. split; [assumption|]. constructor; [|constructor].
    cbn [isPeak daysUntilPeak]. destruct pk as [p|]; [|discriminate].
    cbn [option_map]. intros Hpeak. apply Z.ltb_lt in Hpeak.
    assert (Hd : ceilDiv (p - now) (1000 * 60 * 60 * 24) = 0
                 \/ ceilDiv (p - now) (1000 * 60 * 60 * 24) = 1).
    { unfold ceilDiv. Z.to_euclidean_division_equations. lia. }
    destruct Hd as [-> | ->]; [left|right]; reflexivity.
  - destruct (option_map _ s) as [d|]; [|split; assumption].
    destruct (Z.ltb_spec 0 d); destruct (Z.leb_spec d 60); cbn [andb];
      try (split; assumption).
    cbn [active upcoming]. split; [assumption|].
    apply Forall_app. split; [assumption|]. constructor; [|constructor].
    cbn [daysUntilStart]. lia.
Qed.

(** X6: every upcoming entry starts in 1 to 60 days, and an active entry
    flagged at peak has its peak 0 or 1 day ahead. *)
Theorem calendar_entries_in_range (now : Z) :
  Forall (fun a => isPeak a = true ->
                   daysUntilPeak a = Some 0 \/ daysUntilPeak a = Some 1)
         (active (getActiveAndUpcomingShowers now))
  /\ Forall (fun u => 1 <= daysUntilStart u <= 60)
            (upcoming (getActiveAndUpcomingShowers now)).
Proof.
  unfold getActiveAndUpcomingShowers.
  assert (Hany : forall showers acc,
            Forall (fun a => isPeak a = true ->
                             daysUntilPeak a = Some 0 \/ daysUntilPeak a = Some 1)
                   (active acc) ->
            Forall (fun u => 1 <= daysUntilStart u <= 60) (upcoming acc) ->
            Forall (fun a => isPeak a = true ->
                             daysUntilPeak a = Some 0 \/ daysUntilPeak a = Some 1)
                   (active (fold_left (visit now) showers acc))
            /\ Forall (fun u => 1 <= daysUntilStart u <= 60)
                      (upcoming (fold_left (visit now) showers acc))).
  { induction showers as [|row showers IH]; intros acc Hact Hup; [split; assumption|].
    change (fold_left (visit now) (row :: showers) acc)
      with (fold_left (visit now) showers (visit now acc row)).
    destruct (visit_entries now acc row Hact Hup) as [Hact' Hup'].
    apply IH; assumption. }
  apply Hany; constructor.
Qed.

(** The first half of the year, by the day within the year. *)
Lemma month_before_july leap d :
  (monthFromDayInYear leap d <? 6) = (d <? 181 + (if leap then 1 else 0)).
Proof.
  unfold monthFromDayInYear.
  destruct leap;
    repeat match goal with
           | |- context [monthStart ?l ?m] =>
               let v := eval vm_compute in (monthStart l m) in
               change (monthStart l m) with v
           end;
    repeat match goal with
           | |- ((if ?d' <? ?c then _ else _) <? 6) = _ =>
               destruct (Z.ltb_spec d' c);
               [first [ transitivity true;
                        [reflexivity|symmetry; apply Z.ltb_lt; lia]
                      | transitivity false;
                        [reflexivity|symmetry; apply Z.ltb_ge; lia] ]
               |lazy iota]
           end;
    symmetry; apply Z.ltb_ge; lia.
Qed.

(** Any instant, by its year and its day within the year. *)
Lemma instant_of_year now :
  0 <= Day now - DayFromYear (getFullYear now) < DaysInYear (getFullYear now)
  /\ msPerDay * Day now <= now < msPerDay * (Day now + 1).
Proof.
  unfold getFullYear. pose proof (yearFromDay_correct (Day now)) as Hy.
  rewrite DayFromYear_succ in Hy. split; [lia|].
  unfold Day, msPerDay. Z.to_euclidean_division_equations. lia.
Qed.

Lemma anchored_quadrantids now :
  100 < getFullYear now ->
  anchored quadrantids now
  = if getMonth now <? 6 then
      (Some (newDate (getFullYear now - 1) 11 28),
       Some (newDate (getFullYear now) 0 12), Some (newDate (getFullYear now) 0 3))
    else
      (Some (newDate (getFullYear now) 11 28),
       Some (newDate (getFullYear now + 1) 0 12),
       Some (newDate (getFullYear now + 1) 0 3)).
Proof.
  intros HY. unfold anchored.
  destruct (quadrantids_dates (getFullYear now)) as (-> & -> & ->).
  destruct (quadrantids_dates (getFullYear now - 1)) as (-> & _ & _).
  destruct (quadrantids_dates (getFullYear now + 1)) as (_ & -> & ->).
  replace (ltDate (Some (newDate (getFullYear now) 0 12))
                  (Some (newDate (getFullYear now) 11 28))) with true; [reflexivity|].
  symmetry. cbn [ltDate]. apply Z.ltb_lt. rewrite !newDate_in_year by lia.
  rewrite monthStart_january, monthStart_december. unfold msPerDay.
  destruct (inLeapYear (getFullYear now)); lia.
Qed.

(** X7: in a year the [Date] constructor reads as written (after 100), the
    Quadrantids are classified as active exactly from the first instant of
    December 28 to the end of the year and from the start of the year to
    the first instant of January 12. *)
Theorem quadrantids_active_period (now : Z) :
  100 < getFullYear now ->
  (reportedActive quadrantids now
   <-> now <= newDate (getFullYear now) 0 12
       \/ newDate (getFullYear now) 11 28 <= now).
Proof.
  intros HY.
  destruct (calendar_rows now) as [Hact _].
  assert (Hrep : reportedActive quadrantids now <-> isActiveAt now quadrantids = true).
  { unfold reportedActive. split.
    - intros [Hin _]. rewrite Hact in Hin. apply filter_In in Hin. apply Hin.
    - intros Hq.
      assert (Hin : In quadrantids
                      (map activeRow (active (getActiveAndUpcomingShowers now)))).
      { rewrite Hact. apply filter_In. split; [left; reflexivity|assumption]. }
      split; [assumption|apply active_not_upcoming; assumption]. }
  rewrite Hrep. clear Hrep Hact.
  unfold isActiveAt. rewrite (anchored_quadrantids now HY).
  destruct (instant_of_year now) as [Hoff Hnow].
  pose proof (DayFromYear_succ (getFullYear now - 1)) as Hprev.
  replace (getFullYear now - 1 + 1) with (getFullYear now) in Hprev by lia.
  pose proof (DayFromYear_succ (getFullYear now)) as Hnext.
  rewrite DaysInYear_cases in Hprev, Hnext, Hoff.
  unfold getMonth. fold (getFullYear now). rewrite month_before_july.
  rewrite !newDate_in_year by lia.
  rewrite !monthStart_january, !monthStart_december.
  set (Y := getFullYear now) in *. set (D := Day now) in *.
  unfold msPerDay in *.
  destruct (Z.ltb_spec (D - DayFromYear Y) (181 + (if inLeapYear Y then 1 else 0)));
    cbn [leDate]; rewrite andb_true_iff, !Z.leb_le;
    destruct (inLeapYear Y); destruct (inLeapYear (Y - 1)); lia.
Qed.

(** Witness of X7: the first instant of 31 December 2026. *)
Lemma quadrantids_active_period_witness :
  reportedActive quadrantids (newDate 2026 11 31)
  <-> newDate 2026 11 31 <= newDate (getFullYear (newDate 2026 11 31)) 0 12
      \/ newDate (getFullYear (newDate 2026 11 31)) 11 28 <= newDate 2026 11 31.
Proof.
  apply (quadrantids_active_period (newDate 2026 11 31)).
  vm_compute. reflexivity.
Defined.

End ShowerRuleFacts.

Lemma Qltb_true x y : Qltb x y = true <-> (x < y)%Q.
Proof. apply Qgtb_true. Qed.

Lemma Qltb_false x y : Qltb x y = false <-> (y <= x)%Q.
Proof. apply Qgtb_false. Qed.

Lemma Qleb_true x y : Qleb x y = true <-> (x <= y)%Q.
Proof. apply Qle_bool_iff. Qed.

Lemma Qleb_false x y : Qleb x y = false <-> (y < x)%Q.
Proof. apply (Qgeb_false y x). Qed.

(** Turns the boolean tests among the hypotheses into inequalities; a
    conjunction of tests that failed becomes a disjunction. *)
Ltac tests_to_inequalities :=
  repeat match goal with
         | H : _ && _ = true |- _ => apply andb_true_iff in H; destruct H
         | H : Qgtb _ _ = true |- _ => apply Qgtb_true in H
         | H : Qgtb _ _ = false |- _ => apply Qgtb_false in H
         | H : Qltb _ _ = true |- _ => apply Qltb_true in H
         | H : Qltb _ _ = false |- _ => apply Qltb_false in H
         | H : Qleb _ _ = true |- _ => apply Qleb_true in H
         | H : Qleb _ _ = false |- _ => apply Qleb_false in H
         | H : _ && _ = false |- _ =>
             rewrite ?andb_false_iff, ?Qgtb_false, ?Qltb_false, ?Qleb_false in H
         end.

Ltac clear_alternatives :=
  repeat match goal with H : _ \/ _ |- _ => clear H end.

(** Closes a goal that follows from the inequalities and one of the
    disjunctions among the hypotheses, or two of them. *)
Ltac by_one_failed_test :=
  match goal with
  | H : _ \/ _ |- _ => solve [decompose [or] H; clear_alternatives; lra]
  end.

Ltac by_two_failed_tests :=
  first
    [ by_one_failed_test
    | match goal with
      | H : _ \/ _ |- _ =>
          solve [decompose [or] H;
                 first [solve [clear_alternatives; lra] | by_one_failed_test]]
      end ].

Module GeocodeFacts.
Import Stdlib.Strings.String.
Import Geocode.

(** X8: four names of the table are never returned: every position that
    meets the test of East Asia, Southeast Asia, Oceania or the Caribbean
    meets the test of an ocean placed before it. *)
Theorem getApproxLocation_dead_names (lat lng : Q) :
  getApproxLocation lat lng <> "East Asia"%string
  /\ getApproxLocation lat lng <> "Southeast Asia"%string
  /\ getApproxLocation lat lng <> "Oceania"%string
  /\ getApproxLocation lat lng <> "Caribbean"%string.
Proof.
  unfold getApproxLocation.
  repeat match goal with
         | |- (if ?c then _ else _) <> _ /\ _ =>
             destruct c eqn:?;
             [first [ solve [repeat split; discriminate]
                    | exfalso; tests_to_inequalities; by_two_failed_tests ]
             |]
         end.
  repeat split; discriminate.
Qed.

(** X9: the polar names come first: the answer is the Arctic region exactly
    above 66 degrees of latitude and the Antarctic region exactly below
    -66 degrees, whatever the longitude. *)
Theorem getApproxLocation_polar (lat lng : Q) :
  (getApproxLocation lat lng = "Arctic Region"%string <-> (66 # 1 < lat)%Q)
  /\ (getApproxLocation lat lng = "Antarctic Region"%string <-> (lat < -66 # 1)%Q).
Proof.
  unfold getApproxLocation.
  destruct (Qgtb lat (66 # 1)) eqn:Harctic.
  - apply Qgtb_true in Harctic. split; split; intros H;
      [assumption|reflexivity|discriminate|lra].
  - apply Qgtb_false in Harctic.
    destruct (Qltb lat (-66 # 1)) eqn:Hantarctic.
    + apply Qltb_true in Hantarctic. split; split; intros H;
        [discriminate|lra|assumption|reflexivity].
    + apply Qltb_false in Hantarctic.
      repeat match goal with
             | |- ((if ?c then _ else _) = _ <-> _) /\ _ =>
                 destruct c;
                 [split; split; intros H; [discriminate|lra|discriminate|lra]|]
             end.
      split; split; intros H; [discriminate|lra|discriminate|lra].
Qed.

(** X10: the answer is South Asia only on the 25th parallel: the Indian
    Ocean, tested before, takes the latitudes below it and Central Asia
    those above. *)
Theorem getApproxLocation_south_asia (lat lng : Q) :
  getApproxLocation lat lng = "South Asia"%string
  <-> (lat == 25 # 1)%Q /\ (65 # 1 < lng)%Q /\ (lng <= 100 # 1)%Q.
Proof.
  unfold getApproxLocation.
  repeat match goal with
         | |- (if ?c then _ else _) = _ <-> _ =>
             destruct c eqn:?;
             [split;
              [intros H;
               first [ discriminate H
                     | tests_to_inequalities;
                       assert (lat == 25 # 1)%Q by by_one_failed_test;
                       clear_alternatives; repeat split; lra ]
              |intros (H1 & H2 & H3);
               first [ reflexivity
                     | exfalso; tests_to_inequalities; clear_alternatives; lra ]]
             |]
         end.
  split; [discriminate|].
  intros (H1 & H2 & H3). exfalso. tests_to_inequalities.
  repeat match goal with
         | H : _ \/ _ |- _ =>
             first [ solve [decompose [or] H; clear_alternatives; lra] | clear H ]
         end.
Qed.

End GeocodeFacts.

Module GeocodeRequestFacts.
Import Stdlib.Strings.String.
Import Geocode GeocodeRequest.

Lemma requests_apart clocks : forall lastGeocode,
  Forall (fun t => lastGeocode + 15000 <= t) (requests clocks lastGeocode)
  /\ StronglySorted (fun t t' => t + 15000 <= t') (requests clocks lastGeocode).
Proof.
  induction clocks as [|now clocks IH]; intros lastGeocode; cbn [requests].
  - split; constructor.
  - unfold throttledGeocode. destruct (Z.ltb_spec (now - lastGeocode) 15000).
    + apply IH.
    + destruct (IH now) as [Hall Hsorted]. split.
      * constructor; [lia|]. revert Hall. apply Forall_impl. intros t Ht. lia.
      * constructor; assumption.
Qed.

(** X11: whatever the clock readings of the position fixes, two geocoding
    requests are at least 15 seconds apart, the first one at least 15
    seconds after the initial value of [lastGeocode], and every request is
    made at one of the readings. *)
Theorem geocode_requests_throttled (clocks : list Z) (lastGeocode : Z) :
  Forall (fun t => lastGeocode + 15000 <= t) (requests clocks lastGeocode)
  /\ StronglySorted (fun t t' => t + 15000 <= t') (requests clocks lastGeocode)
  /\ incl (requests clocks lastGeocode) clocks.
Proof.
  destruct (requests_apart clocks lastGeocode) as [Hall Hsorted].
  split; [assumption|]. split; [assumption|].
  clear Hall Hsorted. revert lastGeocode.
  induction clocks as [|now clocks IH]; intros lastGeocode; cbn [requests].
  - apply incl_refl.
  - unfold throttledGeocode. destruct (now - lastGeocode <? 15000).
    + apply incl_tl. apply IH.
    + apply incl_cons; [left; reflexivity|]. apply incl_tl. apply IH.
Qed.

Lemma firstTruthy_truthy candidates otherwise :
  truthy otherwise = true -> truthy (firstTruthy candidates otherwise) = true.
Proof.
  intros Ho. induction candidates as [|[s|] rest IH]; cbn [firstTruthy];
    [assumption| |assumption].
  destruct (truthy s) eqn:Hs; assumption.
Qed.

Lemma join_truthy parts :
  parts <> [] -> Forall (fun s => truthy s = true) parts -> truthy (join parts) = true.
Proof.
  destruct parts as [|part rest]; [congruence|]. intros _ Hall.
  inversion Hall as [|? ? Hpart Hrest]; subst.
  destruct rest as [|part' rest']; cbn [join]; [assumption|].
  destruct part; [discriminate|reflexivity].
Qed.

Lemma partsOf_truthy a : Forall (fun s => truthy s = true) (partsOf a).
Proof.
  unfold partsOf.
  set (c := firstTruthy [city a; town a; village a; municipality a; county a] "").
  set (r := firstTruthy [state a; region a] "").
  set (k := firstTruthy [country a] "").
  set (o := firstTruthy [ocean a; sea a] "").
  assert (H1 : Forall (fun s => truthy s = true) (if truthy c then [c] else []))
    by (destruct (truthy c) eqn:E; repeat constructor; assumption).
  set (p1 := if truthy c then [c] else []) in *.
  assert (H2 : Forall (fun s => truthy s = true)
                 (if truthy r && negb (r =? c)%string then p1 ++ [r] else p1)).
  { destruct (truthy r) eqn:E; cbn [andb]; [|assumption].
    destruct (negb (r =? c)%string); [|assumption].
    apply Forall_app. split; [assumption|repeat constructor; assumption]. }
  set (p2 := if truthy r && negb (r =? c)%string then p1 ++ [r] else p1) in *.
  assert (H3 : Forall (fun s => truthy s = true) (if truthy k then p2 ++ [k] else p2)).
  { destruct (truthy k) eqn:E; [|assumption].
    apply Forall_app. split; [assumption|repeat constructor; assumption]. }
  set (p3 := if truthy k then p2 ++ [k] else p2) in *.
  destruct (Nat.eqb (List.length p3) 0); cbn [andb]; [|assumption].
  destruct (truthy o) eqn:E; [|assumption].
  apply Forall_app. split; [assumption|repeat constructor; assumption].
Qed.

Lemma getApproxLocation_truthy lat lng : truthy (getApproxLocation lat lng) = true.
Proof.
  unfold getApproxLocation.
  repeat match goal with
         | |- context [if ?c then _ else _] => destruct c; [reflexivity|]
         end.
  reflexivity.
Qed.

(** X12: the location text is never empty, whether the service answers,
    with or without an address or a display name, or fails. *)
Theorem reverseGeocode_text_not_empty
  (lat lng : Q) (response : option GeocodeData) :
  reverseGeocode lat lng response <> ""%string.
Proof.
  assert (Htruthy : truthy (reverseGeocode lat lng response) = true).
  { destruct response as [data|]; cbn [reverseGeocode];
      [|apply getApproxLocation_truthy].
    unfold locationText.
    set (parts := match address data with Some a => partsOf a | None => [] end).
    assert (Hparts : Forall (fun s => truthy s = true) parts)
      by (subst parts; destruct (address data); [apply partsOf_truthy|constructor]).
    destruct parts as [|part rest] eqn:E.
    - change (0 <? List.length (@nil string))%nat with false. cbn iota.
      apply firstTruthy_truthy. reflexivity.
    - change (0 <? List.length (part :: rest))%nat with true. cbn iota.
      apply join_truthy; [discriminate|assumption]. }
  intros Hempty. rewrite Hempty in Htruthy. discriminate.
Qed.

End GeocodeRequestFacts.

Module TrailPlainFacts.
Import Trail TrailPlain TrailFacts.

Lemma walk_count rest : forall prev segs cur,
  length (fst (walk prev rest segs cur)) = (length segs + crossingsFrom prev rest)%nat.
Proof.
  induction rest as [|curr rest IH]; intros prev segs cur; cbn [walk crossingsFrom].
  - cbn [fst]. lia.
  - destruct (crossing (lng prev) (lng curr)); rewrite IH.
    + rewrite length_app. cbn [length]. lia.
    + lia.
Qed.

(** X13: the segmentation yields one segment more than there are
    antimeridian crossings between consecutive points of the buffer. *)
Theorem segments_count_crossings (tp : list Point) :
  tp <> [] ->
  exists segments,
    splitTrail tp = Some segments /\ length segments = S (crossings tp).
Proof.
  destruct tp as [|p0 rest]; [congruence|]. intros _.
  rewrite splitTrail_walk. eexists. split; [reflexivity|].
  rewrite length_app, walk_count. cbn [length crossings]. lia.
Qed.

(** Witness of X13: the scenario buffer, with its one crossing. *)
Lemma segments_count_crossings_witness :
  exists segments,
    splitTrail scenario = Some segments /\ length segments = S (crossings scenario).
Proof.
  apply (segments_count_crossings scenario). discriminate.
Defined.

Lemma smooth_tail p rest : smooth (p :: rest) -> smooth rest.
Proof.
  intros Hs i a b Ha Hb. apply (Hs (S i) a b); assumption.
Qed.

Lemma walk_smooth_buffer rest : forall prev segs cur,
  smooth (prev :: rest) -> walk prev rest segs cur = (segs, cur ++ rest).
Proof.
  induction rest as [|curr rest IH]; intros prev segs cur Hs; cbn [walk].
  - now rewrite app_nil_r.
  - assert (Hc : crossing (lng prev) (lng curr) = false).
    { apply Qgtb_false. apply (Hs 0%nat prev curr); reflexivity. }
    rewrite Hc, IH by (apply (smooth_tail prev); assumption).
    rewrite <- app_assoc. reflexivity.
Qed.

(** X14: when no two consecutive points of the buffer are on either side of
    the antimeridian, the segmenting [addTrailPoint] does what the plain one
    does: the globe gets the whole buffer as a single path. *)
Theorem addTrailPoint_plain_without_crossing (lat lng : Q) (st : State) :
  smooth (bufferAfter lat lng st) ->
  addTrailPoint lat lng st = addTrailPointPlain lat lng st.
Proof.
  intros Hs. unfold addTrailPoint, addTrailPointPlain.
  fold (bufferAfter lat lng st).
  destruct (globe st) as [g|]; [|reflexivity].
  destruct (bufferAfter lat lng st) as [|p0 rest] eqn:E; [reflexivity|].
  destruct (2 <=? length (p0 :: rest))%nat; [|reflexivity].
  rewrite splitTrail_walk, (walk_smooth_buffer rest p0 [] [p0] Hs). reflexivity.
Qed.

(** Witness of X14: a point added east of the only point of the trail. *)
Lemma addTrailPoint_plain_without_crossing_witness :
  addTrailPoint (10 # 1) (175 # 1)
    {| globe := Some {| pathsData := [] |}; trailPoints := [(10 # 1, 170 # 1)]%Q |}
  = addTrailPointPlain (10 # 1) (175 # 1)
      {| globe := Some {| pathsData := [] |}; trailPoints := [(10 # 1, 170 # 1)]%Q |}.
Proof.
  apply (addTrailPoint_plain_without_crossing (10 # 1) (175 # 1)).
  intros i p q Hp Hq. destruct i as [|[|i]]; [|discriminate|discriminate].
  injection Hp as <-. injection Hq as <-. apply Qle_bool_iff. reflexivity.
Defined.

Lemma addTrailPoints_app pts1 : forall pts2 st,
  addTrailPoints (pts1 ++ pts2) st
  = match addTrailPoints pts1 st with
    | Some st' => addTrailPoints pts2 st'
    | None => None
    end.
Proof.
  induction pts1 as [|p pts1 IH]; intros pts2 st; cbn [app addTrailPoints];
    [reflexivity|].
  destruct (addTrailPoint (lat p) (lng p) st); [apply IH|reflexivity].
Qed.

Lemma addTrailPoint_keeps_globe la lo st st' :
  addTrailPoint la lo st = Some st' -> globe st <> None -> globe st' <> None.
Proof.
  unfold addTrailPoint. destruct (globe st) as [g|]; [|congruence].
  intros H _. destruct (2 <=? length _)%nat.
  - destruct (splitTrail _); [|discriminate]. injection H as <-. discriminate.
  - injection H as <-. discriminate.
Qed.

Lemma addTrailPoints_keep_globe pts : forall st st',
  addTrailPoints pts st = Some st' -> globe st <> None -> globe st' <> None.
Proof.
  induction pts as [|p pts IH]; intros st st' Hrun Hg; cbn [addTrailPoints] in Hrun.
  - injection Hrun as <-. assumption.
  - destruct (addTrailPoint (lat p) (lng p) st) as [st1|] eqn:E; [|discriminate].
    apply (IH st1 st' Hrun). apply (addTrailPoint_keeps_globe _ _ _ _ E Hg).
Qed.

(** X15: with a globe attached from the start, after two position fixes or
    more the paths on the globe are the segments of the current buffer:
    they are never left behind the trail. *)
Theorem paths_follow_buffer (g : Globe) (pts : list Point) :
  (2 <= length pts)%nat ->
  exists st,
    addTrailPoints pts (initial (Some g)) = Some st
    /\ option_map pathsData (globe st) = splitTrail (trailPoints st).
Proof.
  intros Hlen.
  destruct (exists_last (l := pts)) as (pts' & p & ->);
    [intros ->; cbn in Hlen; lia|].
  destruct (addTrailPoints_buffer (pts' ++ [p]) (initial (Some g)))
    as (st & Hrun & _ & Htp); [cbn; unfold TRAIL_MAX; lia|].
  exists st. split; [exact Hrun|].
  rewrite addTrailPoints_app in Hrun.
  destruct (addTrailPoints pts' (initial (Some g))) as [st1|] eqn:Hfirst;
    [|discriminate].
  cbn [addTrailPoints] in Hrun.
  destruct (addTrailPoint (lat p) (lng p) st1) as [st2|] eqn:Hlast; [|discriminate].
  injection Hrun as ->.
  assert (Hg : globe st1 <> None)
    by (apply (addTrailPoints_keep_globe pts' _ _ Hfirst); discriminate).
  destruct (globe st1) as [g1|] eqn:Hg1; [|congruence].
  apply (addTrailPoint_paths (lat p) (lng p) st1 st g1 Hg1 Hlast).
  rewrite Htp. cbn [initial trailPoints app].
  rewrite length_skipn. unfold TRAIL_MAX. lia.
Qed.

(** Witness of X15: the scenario buffer. *)
Lemma paths_follow_buffer_witness :
  exists st,
    addTrailPoints scenario (initial (Some {| pathsData := [] |})) = Some st
    /\ option_map pathsData (globe st) = splitTrail (trailPoints st).
Proof.
  apply (paths_follow_buffer {| pathsData := [] |} scenario). cbn. lia.
Defined.

End TrailPlainFacts.

Module SunMoreFacts.
Import Sun.

Lemma dayStart_offset (dt : Z) :
  -86400000 < JsDate.setUTCHours0 dt - dt <= 0.
Proof.
  unfold JsDate.setUTCHours0, JsDate.Day, JsDate.msPerDay.
  Z.to_euclidean_division_equations. lia.
Qed.

Lemma dayStart_offset_periodic (dt k : Z) :
  JsDate.setUTCHours0 (dt + k * 86400000) - (dt + k * 86400000)
  = JsDate.setUTCHours0 dt - dt.
Proof.
  unfold JsDate.setUTCHours0, JsDate.Day, JsDate.msPerDay.
  rewrite Z.div_add by lia. lia.
Qed.

Lemma degrees_per_day (x : Q) :
  (x / (86400000 # 1) * (360 # 1) == x * (1 # 240000))%Q.
Proof. field. Qed.

Lemma quarter (e : Q) : (e / (4 # 1) == e * (1 # 4))%Q.
Proof. field. Qed.

(** X16: before the correction by the equation of time, the longitude
    returned lies between -540 (excluded) and -180 (included) degrees: it
    is -180 at UTC midnight and decreases by 360 degrees over the UTC day;
    it is not brought back to the range from -180 to 180. *)
Theorem getSunPosition_longitude_range
  (century : Z -> Q) (equationOfTime declination : Q -> Q) (dt : Z) :
  (-540 # 1
   < fst (getSunPosition century equationOfTime declination dt)
     + equationOfTime (century dt) / (4 # 1))%Q
  /\ (fst (getSunPosition century equationOfTime declination dt)
      + equationOfTime (century dt) / (4 # 1)
      <= -180 # 1)%Q.
Proof.
  unfold getSunPosition. cbn [fst].
  destruct (dayStart_offset dt) as [Hlo Hhi].
  set (z := JsDate.setUTCHours0 dt - dt) in *.
  assert (Hlo' : (inject_Z (-86400000) < inject_Z z)%Q) by (rewrite <- Zlt_Qlt; assumption).
  assert (Hhi' : (inject_Z z <= inject_Z 0)%Q) by (rewrite <- Zle_Qle; assumption).
  change (inject_Z (-86400000)) with (-86400000 # 1)%Q in Hlo'.
  change (inject_Z 0) with (0 # 1)%Q in Hhi'.
  set (e := equationOfTime (century dt)).
  set (x := inject_Z z) in *.
  rewrite degrees_per_day, !quarter. split; lra.
Qed.

(** X17: before the correction by the equation of time, the longitude
    returned depends on the time of the UTC day alone: it is the same a
    whole number of days earlier or later. *)
Theorem getSunPosition_daily_period
  (century : Z -> Q) (equationOfTime declination : Q -> Q) (dt k : Z) :
  (fst (getSunPosition century equationOfTime declination (dt + k * 86400000)%Z)
   + equationOfTime (century (dt + k * 86400000)%Z) / (4 # 1)
   == fst (getSunPosition century equationOfTime declination dt)
      + equationOfTime (century dt) / (4 # 1))%Q.
Proof.
  unfold getSunPosition. cbn [fst].
  rewrite dayStart_offset_periodic.
  set (e := equationOfTime (century dt)).
  set (e' := equationOfTime (century (dt + k * 86400000)%Z)).
  set (x := inject_Z (JsDate.setUTCHours0 dt - dt)).
  rewrite degrees_per_day, !quarter. lra.
Qed.

End SunMoreFacts.

Module DrawerFacts.
Import Stdlib.Strings.String.
Import Drawers.

Lemma closeDrawer_consistent st : consistent st -> consistent (closeDrawer st).
Proof.
  intros (Hopen & Hpanel & Hbtn). unfold closeDrawer, consistent.
  cbn [activeDrawer openClass panelHidden buttonActive].
  split; [|split].
  - intros x. split; [|discriminate]. intros Hx.
    destruct (activeDrawer st) as [d|] eqn:Hd.
    + unfold removeClass in Hx. destruct (String.eqb_spec x d) as [E|Hne];
        [discriminate|]. apply Hopen in Hx. congruence.
    + apply Hopen in Hx. discriminate.
  - split; [discriminate|congruence].
  - intros x. split; discriminate.
Qed.

Lemma openDrawer_consistent elementExists id st :
  consistent st -> consistent (openDrawer elementExists id st).
Proof.
  intros Hst. unfold openDrawer.
  destruct (elementExists id); cbn [negb]; [|assumption].
  destruct Hst as (Hopen & Hpanel & Hbtn).
  destruct (activeDrawer st) as [d|] eqn:Hd.
  - destruct (String.eqb_spec d id) as [E|Hne]; [subst d|]; cbn [negb].
    + rewrite Hd, String.eqb_refl. cbn [andb].
      rewrite (proj2 (Hopen id) eq_refl).
      apply closeDrawer_consistent. unfold consistent. rewrite Hd.
      split; [assumption|]. split; assumption.
    + cbn [activeDrawer openClass]. destruct (String.eqb_spec d id); [contradiction|].
      cbn [andb]. unfold consistent.
      cbn [activeDrawer openClass panelHidden buttonActive].
      split; [|split].
      * intros x. unfold addClass, removeClass.
        destruct (String.eqb_spec x id) as [E|Hx]; [subst x; split; reflexivity|].
        destruct (String.eqb_spec x d) as [E|Hxd]; [subst x; split; [discriminate|congruence]|].
        split; [|congruence]. intros H. apply Hopen in H. congruence.
      * split; [discriminate|reflexivity].
      * intros x. destruct (String.eqb_spec x id) as [E|Hx];
          [subst x|]; split; congruence.
  - rewrite Hd. cbn [andb]. unfold consistent.
    cbn [activeDrawer openClass panelHidden buttonActive].
    split; [|split].
    + intros x. unfold addClass.
      destruct (String.eqb_spec x id) as [E|Hx]; [subst x; split; reflexivity|].
      split; [|congruence]. intros H. apply Hopen in H. discriminate.
    + split; [discriminate|reflexivity].
    + intros x. destruct (String.eqb_spec x id) as [E|Hx]; [subst x|]; split; congruence.
Qed.

(** X18: whatever is clicked, in any order, the page stays consistent: at
    most one drawer carries [open], namely the active one; the panel is
    hidden exactly while a drawer is active; and exactly the button of the
    active drawer is highlighted. *)
Theorem clicks_keep_drawers_consistent
  (elementExists : string -> bool) (cs : list Click) (st : State) :
  consistent st -> consistent (clicks elementExists cs st).
Proof.
  revert st. induction cs as [|c cs IH]; intros st Hst; [exact Hst|].
  unfold clicks. cbn [fold_left]. apply IH.
  destruct c as [id|]; cbn [click];
    [apply openDrawer_consistent|apply closeDrawer_consistent]; assumption.
Qed.

Lemma closed_consistent : consistent closed.
Proof.
  unfold consistent, closed. cbn.
  split; [|split]; [intros x; split; discriminate
                   |split; [discriminate|congruence]
                   |intros x; split; discriminate].
Qed.

(** Witness of X18: three clicks on the page as it is loaded. *)
Lemma clicks_keep_drawers_consistent_witness :
  consistent
    (clicks (fun _ => true)
       [OnDrawerButton "drawer-stats"; OnDrawerButton "drawer-speed"; OnCloseButton]
       closed).
Proof.
  apply (clicks_keep_drawers_consistent (fun _ => true)
           [OnDrawerButton "drawer-stats"; OnDrawerButton "drawer-speed"; OnCloseButton]
           closed).
  exact closed_consistent.
Defined.

(** X19: on a consistent page, a click on the button of an existing drawer
    toggles that drawer (it opens if it was closed and closes if it was
    open) and leaves no other drawer open; a click for an id that no
    element has changes nothing. *)
Theorem openDrawer_toggles
  (elementExists : string -> bool) (id : string) (st : State) :
  consistent st ->
  (elementExists id = true ->
   openClass (openDrawer elementExists id st) id = negb (openClass st id)
   /\ forall x, x <> id -> openClass (openDrawer elementExists id st) x = false)
  /\ (elementExists id = false -> openDrawer elementExists id st = st).
Proof.
  intros (Hopen & Hpanel & Hbtn). unfold openDrawer. split.
  - intros ->. cbn [negb].
    destruct (activeDrawer st) as [d|] eqn:Hd.
    + destruct (String.eqb_spec d id) as [E|Hne]; [subst d|]; cbn [negb].
      * rewrite Hd, String.eqb_refl. cbn [andb].
        rewrite (proj2 (Hopen id) eq_refl). cbn [negb].
        unfold closeDrawer. rewrite Hd. cbn [openClass]. unfold removeClass.
        split; [rewrite String.eqb_refl; reflexivity|].
        intros x Hx. destruct (String.eqb_spec x id); [contradiction|].
        destruct (openClass st x) eqn:Hox; [|reflexivity].
        apply Hopen in Hox. congruence.
      * cbn [activeDrawer openClass]. destruct (String.eqb_spec d id); [contradiction|].
        cbn [andb openClass]. unfold addClass, removeClass.
        split.
        -- rewrite String.eqb_refl.
           destruct (openClass st id) eqn:Hoi; [|reflexivity].
           apply Hopen in Hoi. congruence.
        -- intros x Hx. destruct (String.eqb_spec x id); [contradiction|].
           destruct (String.eqb_spec x d); [reflexivity|].
           destruct (openClass st x) eqn:Hox; [|reflexivity].
           apply Hopen in Hox. congruence.
    + rewrite Hd. cbn [andb openClass]. unfold addClass. split.
      * rewrite String.eqb_refl.
        destruct (openClass st id) eqn:Hoi; [|reflexivity].
        apply Hopen in Hoi. congruence.
      * intros x Hx. destruct (String.eqb_spec x id); [contradiction|].
        destruct (openClass st x) eqn:Hox; [|reflexivity].
        apply Hopen in Hox. congruence.
  - intros ->. reflexivity.
Qed.

(** Witness of X19: a click on a drawer button of the page as loaded. *)
Lemma openDrawer_toggles_witness :
  (true = true ->
   openClass (openDrawer (fun _ => true) "drawer-stats" closed) "drawer-stats"
   = negb (openClass closed "drawer-stats")
   /\ forall x, x <> "drawer-stats"%string ->
                openClass (openDrawer (fun _ => true) "drawer-stats" closed) x = false)
  /\ (true = false ->
      openDrawer (fun _ => true) "drawer-stats" closed = closed).
Proof.
  apply (openDrawer_toggles (fun _ => true) "drawer-stats" closed).
  exact closed_consistent.
Defined.

End DrawerFacts.

Module TelemetryFacts.
Import Telemetry.

Lemma scale_pos digits : (0 < scale digits)%Q.
Proof.
  unfold scale. change 0%Q with (inject_Z 0). rewrite <- Zlt_Qlt.
  apply Z.pow_pos_nonneg; lia.
Qed.

(** Rounding to the nearest integer keeps a number between two integers
    that bound it. *)
Lemma round_between (a b : Z) (y : Q) :
  (inject_Z a <= y)%Q -> (y <= inject_Z b)%Q ->
  a <= Qfloor (y + (1 # 2)) <= b.
Proof.
  intros Ha Hb. split.
  - rewrite <- (Qfloor_Z a). apply Qfloor_resp_le. lra.
  - assert (Hlt : (inject_Z (Qfloor (y + (1 # 2))) < inject_Z (b + 1))%Q).
    { apply Qle_lt_trans with (y + (1 # 2))%Q; [apply Qfloor_le|].
      rewrite inject_Z_plus. change (inject_Z 1) with 1%Q. lra. }
    rewrite <- Zlt_Qlt in Hlt. lia.
Qed.

Lemma toFixedDigits_between digits (a b : Z) (x : Q) :
  (inject_Z a <= x * scale digits)%Q -> (x * scale digits <= inject_Z b)%Q ->
  a <= toFixedDigits digits x <= b.
Proof.
  intros Ha Hb. unfold toFixedDigits. destruct (Qltb x 0).
  - assert (H : - b <= Qfloor (- x * scale digits + (1 # 2)) <= - a).
    { apply round_between; rewrite inject_Z_opp; lra. }
    lia.
  - apply round_between; assumption.
Qed.

Lemma clamped_between lo hi y :
  (lo <= hi)%Q -> (lo <= Qmax lo (Qmin hi y))%Q /\ (Qmax lo (Qmin hi y) <= hi)%Q.
Proof.
  intros Hle. split; [apply Q.le_max_l|].
  apply Q.max_lub; [assumption|apply Q.le_min_l].
Qed.

(** A value between the bounds is shown between the bounds, when the bounds
    have no more decimals than the value shown. *)
Lemma shown_between (spec : Spec) (value : Q) :
  shownExactly spec (min spec) -> shownExactly spec (max spec) ->
  (min spec <= value)%Q -> (value <= max spec)%Q ->
  (min spec
   <= numberOf match decimals spec with
               | Some digits => Fixed digits (toFixedDigits digits value)
               | None => Rounded (PassCards.roundQ value)
               end)%Q
  /\ (numberOf match decimals spec with
               | Some digits => Fixed digits (toFixedDigits digits value)
               | None => Rounded (PassCards.roundQ value)
               end
      <= max spec)%Q.
Proof.
  intros [a Ha] [b Hb] Hlo Hhi.
  destruct (decimals spec) as [digits|]; cbn [numberOf].
  - pose proof (scale_pos digits) as Hs.
    assert (Hn : a <= toFixedDigits digits value <= b).
    { apply toFixedDigits_between.
      - rewrite <- Ha. apply Qmult_le_compat_r; [assumption|lra].
      - rewrite <- Hb. apply Qmult_le_compat_r; [assumption|lra]. }
    destruct Hn as [Hna Hnb]. rewrite Zle_Qle in Hna, Hnb. split.
    + apply Qle_shift_div_l; [assumption|]. rewrite Ha. assumption.
    + apply Qle_shift_div_r; [assumption|]. rewrite Hb. assumption.
  - change (scale 0) with 1%Q in Ha, Hb. rewrite Qmult_1_r in Ha, Hb.
    assert (Hn : a <= PassCards.roundQ value <= b).
    { apply round_between; [rewrite <- Ha|rewrite <- Hb]; assumption. }
    destruct Hn as [Hna Hnb]. rewrite Zle_Qle in Hna, Hnb.
    rewrite Ha, Hb. split; assumption.
Qed.

(** X20: when the bounds of a spec are in order and have no more decimals
    than the value shown, the value generated lies between the bounds,
    whatever the sine and the random number are. *)
Theorem generateTelemetryValue_in_bounds (spec : Spec) (sine random : Q) :
  (min spec <= max spec)%Q ->
  shownExactly spec (min spec) -> shownExactly spec (max spec) ->
  (min spec <= numberOf (generateTelemetryValue spec sine random))%Q
  /\ (numberOf (generateTelemetryValue spec sine random) <= max spec)%Q.
Proof.
  intros Hle Hmin Hmax. unfold generateTelemetryValue.
  set (y := (min spec + _ + _)%Q).
  destruct (clamped_between (min spec) (max spec) y Hle) as [Hlo Hhi].
  cbv zeta. apply shown_between; assumption.
Qed.

End TelemetryFacts.

Module TelemetryFillFacts.
Import Telemetry TelemetryFacts.

(** X21: for such a spec with distinct bounds, the percentage computed from
    a generated value is between 0 and 100, so that the width of the fill
    is that percentage: the clamp in [renderTelemetry] never cuts. *)
Theorem telemetry_fill_is_percent (spec : Spec) (sine random : Q) :
  (min spec < max spec)%Q ->
  shownExactly spec (min spec) -> shownExactly spec (max spec) ->
  (0 <= percent spec (generateTelemetryValue spec sine random))%Q
  /\ (percent spec (generateTelemetryValue spec sine random) <= 100 # 1)%Q
  /\ (fillWidth spec (generateTelemetryValue spec sine random)
      == percent spec (generateTelemetryValue spec sine random))%Q.
Proof.
  intros Hlt Hmin Hmax.
  assert (Hbounds :
    (min spec <= numberOf (generateTelemetryValue spec sine random))%Q
    /\ (numberOf (generateTelemetryValue spec sine random) <= max spec)%Q).
  { unfold generateTelemetryValue.
    set (y := (min spec + _ + _)%Q).
    destruct (clamped_between (min spec) (max spec) y (Qlt_le_weak _ _ Hlt))
      as [Hlo Hhi].
    cbv zeta. apply shown_between; assumption. }
  destruct Hbounds as [Hlo Hhi].
  unfold fillWidth, percent.
  set (v := numberOf (generateTelemetryValue spec sine random)) in *.
  assert (Hrange : (0 < max spec - min spec)%Q) by lra.
  assert (Hq0 : (0 <= (v - min spec) / (max spec - min spec))%Q)
    by (apply Qle_shift_div_l; [assumption|lra]).
  assert (Hq1 : ((v - min spec) / (max spec - min spec) <= 1)%Q)
    by (apply Qle_shift_div_r; [assumption|lra]).
  set (q := ((v - min spec) / (max spec - min spec))%Q) in *.
  assert (H0 : (0 <= q * (100 # 1))%Q) by lra.
  assert (H100 : (q * (100 # 1) <= 100 # 1)%Q) by lra.
  split; [assumption|]. split; [assumption|].
  rewrite (Q.min_r _ _ H100). apply Q.max_r. assumption.
Qed.

(** The spec of the cabin temperature: from 18.3 to 26.7 with one decimal. *)
Lemma cabinTemp_shown_exactly :
  shownExactly {| min := 183 # 10; max := 267 # 10; decimals := Some 1%nat |} (183 # 10)
  /\ shownExactly {| min := 183 # 10; max := 267 # 10; decimals := Some 1%nat |} (267 # 10).
Proof.
  split; [exists 183|exists 267]; reflexivity.
Qed.

(** Witness of X20: the cabin temperature at the top of the sine wave with
    the largest noise. *)
Lemma generateTelemetryValue_in_bounds_witness :
  (183 # 10
   <= numberOf (generateTelemetryValue
                  {| min := 183 # 10; max := 267 # 10; decimals := Some 1%nat |} 1 1))%Q
  /\ (numberOf (generateTelemetryValue
                  {| min := 183 # 10; max := 267 # 10; decimals := Some 1%nat |} 1 1)
      <= 267 # 10)%Q.
Proof.
  apply (generateTelemetryValue_in_bounds
           {| min := 183 # 10; max := 267 # 10; decimals := Some 1%nat |} 1 1).
  - apply Qle_bool_iff. reflexivity.
  - apply cabinTemp_shown_exactly.
  - apply cabinTemp_shown_exactly.
Defined.

(** Witness of X21: the same reading. *)
Lemma telemetry_fill_is_percent_witness :
  (0 <= percent {| min := 183 # 10; max := 267 # 10; decimals := Some 1%nat |}
          (generateTelemetryValue
             {| min := 183 # 10; max := 267 # 10; decimals := Some 1%nat |} 1 1))%Q
  /\ (percent {| min := 183 # 10; max := 267 # 10; decimals := Some 1%nat |}
        (generateTelemetryValue
           {| min := 183 # 10; max := 267 # 10; decimals := Some 1%nat |} 1 1)
      <= 100 # 1)%Q
  /\ (fillWidth {| min := 183 # 10; max := 267 # 10; decimals := Some 1%nat |}
        (generateTelemetryValue
           {| min := 183 # 10; max := 267 # 10; decimals := Some 1%nat |} 1 1)
      == percent {| min := 183 # 10; max := 267 # 10; decimals := Some 1%nat |}
           (generateTelemetryValue
              {| min := 183 # 10; max := 267 # 10; decimals := Some 1%nat |} 1 1))%Q.
Proof.
  apply (telemetry_fill_is_percent
           {| min := 183 # 10; max := 267 # 10; decimals := Some 1%nat |} 1 1).
  - reflexivity.
  - apply cabinTemp_shown_exactly.
  - apply cabinTemp_shown_exactly.
Defined.

End TelemetryFillFacts.

Module CameraFacts.
Import Camera.

(** The state after [c] fixes with no interaction. *)
Lemma fixes_untouched clocks : forall c st,
  0 <= c -> updateCount st = c -> userInteracted st = false ->
  idleUpdates st = (if c <=? 2 then 0 else (c - 2) mod 3) ->
  forall n, (n < length clocks)%nat ->
    nth n (snd (fixes clocks st)) false
    = (c + Z.of_nat n =? 0) || ((c + Z.of_nat n) mod 3 =? 1).
Proof.
  induction clocks as [|now clocks IH]; intros c st Hc Hcount Huser Hidle n Hn;
    [cbn in Hn; lia|].
  cbn [fixes].
  destruct st as [count user last idle].
  cbn [updateCount userInteracted idleUpdates] in Hcount, Huser, Hidle.
  subst count user.
  destruct (updateGlobe now _) as [st1 moved] eqn:Hfix.
  destruct (fixes clocks st1) as [st2 moves] eqn:Hrest. cbn [snd].
  unfold updateGlobe in Hfix.
  cbn [updateCount userInteracted lastInteractionTime idleUpdates] in Hfix.
  rewrite Hidle in Hfix. cbn [negb orb] in Hfix.
  unfold CAMERA_IDLE_THRESHOLD in Hfix.
  assert (Hnext : updateCount st1 = c + 1 /\ userInteracted st1 = false
                  /\ idleUpdates st1 = (if c + 1 <=? 2 then 0 else (c + 1 - 2) mod 3)
                  /\ moved = (c =? 0) || (c mod 3 =? 1)).
  { destruct (Z.leb_spec (c + 1) 2) as [Hsmall|Hbig].
    - injection Hfix as <- <-. cbn [updateCount userInteracted idleUpdates].
      destruct (Z.leb_spec c 2); [|lia].
      repeat split.
      assert (Hc01 : c = 0 \/ c = 1) by lia.
      destruct Hc01 as [-> | ->]; reflexivity.
    - destruct (Z.leb_spec c 2) as [Hc2|Hc2].
      + assert (c = 2) by lia. subst c.
        change (3 <=? 0 + 1) with false in Hfix. injection Hfix as <- <-.
        cbn [updateCount userInteracted idleUpdates].
        split; [reflexivity|]. split; [reflexivity|]. split; reflexivity.
      + destruct (Z.leb_spec 3 ((c - 2) mod 3 + 1)) as [Hmove|Hstay];
          injection Hfix as <- <-;
          cbn [updateCount userInteracted idleUpdates];
          (split; [reflexivity|]); (split; [reflexivity|]); split;
          try (symmetry; apply orb_true_iff; right; apply Z.eqb_eq);
          try (symmetry; apply orb_false_iff; split; [apply Z.eqb_neq|apply Z.eqb_neq]);
          Z.to_euclidean_division_equations; lia. }
  destruct Hnext as (Hcount1 & Huser1 & Hidle1 & Hmoved).
  destruct n as [|n]; cbn [nth].
  - rewrite Z.add_0_r. exact Hmoved.
  - specialize (IH (c + 1) st1 ltac:(lia) Hcount1 Huser1 Hidle1 n).
    rewrite Hrest in IH. cbn [snd] in IH. rewrite IH by (cbn in Hn; lia).
    replace (c + 1 + Z.of_nat n) with (c + Z.of_nat (S n)) by lia. reflexivity.
Qed.

(** X22: while the user does not touch the globe, the camera is moved over
    the station at the first two fixes and then at every third fix: the
    fifth, the eighth, and so on. Counting the fixes from 0, those are the
    fix 0 and the fixes whose number is 1 more than a multiple of 3. *)
Theorem camera_follows_every_third_fix (clocks : list Z) (n : nat) :
  (n < length clocks)%nat ->
  nth n (snd (fixes clocks initial)) false
  = (Z.of_nat n =? 0) || (Z.of_nat n mod 3 =? 1).
Proof.
  intros Hn.
  apply (fixes_untouched clocks 0 initial); [lia|reflexivity..|assumption].
Qed.

(** Witness of X22: the fifth of six fixes, five seconds apart. *)
Lemma camera_follows_every_third_fix_witness :
  nth 4 (snd (fixes [0; 5000; 10000; 15000; 20000; 25000] initial)) false
  = (Z.of_nat 4 =? 0) || (Z.of_nat 4 mod 3 =? 1).
Proof.
  apply (camera_follows_every_third_fix [0; 5000; 10000; 15000; 20000; 25000] 4).
  cbn. lia.
Defined.

Lemma fixes_after_interaction clocks : forall st,
  2 <= updateCount st -> userInteracted st = true -> 0 <= idleUpdates st ->
  idleUpdates st + Z.of_nat (idleFixes (lastInteractionTime st) clocks) < 3 ->
  Forall (fun moved => moved = false) (snd (fixes clocks st)).
Proof.
  induction clocks as [|now clocks IH]; intros st Hcount Huser Hidle Hfew;
    [constructor|].
  cbn [fixes].
  destruct (updateGlobe now st) as [st1 moved] eqn:Hfix.
  destruct (fixes clocks st1) as [st2 moves] eqn:Hrest. cbn [snd].
  unfold idleFixes in Hfew. cbn [filter] in Hfew.
  unfold updateGlobe in Hfix.
  cbn [updateCount userInteracted lastInteractionTime idleUpdates] in Hfix.
  rewrite Huser in Hfix. cbn [negb orb] in Hfix.
  unfold CAMERA_IDLE_THRESHOLD in Hfix.
  destruct (Z.leb_spec (updateCount st + 1) 2); [lia|].
  assert (Hnext : moved = false /\ 2 <= updateCount st1 /\ userInteracted st1 = true
                  /\ 0 <= idleUpdates st1
                  /\ lastInteractionTime st1 = lastInteractionTime st
                  /\ idleUpdates st1
                     + Z.of_nat (idleFixes (lastInteractionTime st) clocks) < 3).
  { unfold idleFixes.
    destruct (15000 <? now - lastInteractionTime st).
    - cbn [length] in Hfew.
      destruct (Z.leb_spec 3 (idleUpdates st + 1)); [lia|].
      injection Hfix as <- <-.
      cbn [updateCount userInteracted lastInteractionTime idleUpdates].
      repeat split; try assumption; lia.
    - injection Hfix as <- <-.
      cbn [updateCount userInteracted lastInteractionTime idleUpdates].
      repeat split; try assumption; lia. }
  destruct Hnext as (-> & Hcount1 & Huser1 & Hidle1 & Hlast & Hfew1).
  constructor; [reflexivity|].
  specialize (IH st1 Hcount1 Huser1 Hidle1).
  rewrite Hlast, Hrest in IH. apply IH. assumption.
Qed.

(** X23: once two fixes have been shown, an interaction at time [t] keeps
    the camera still until three fixes have been taken more than 15
    seconds after [t]: over fixes of which fewer than three are that late,
    the camera is never moved. *)
Theorem camera_still_after_interaction (t : Z) (st : State) (clocks : list Z) :
  2 <= updateCount st ->
  (idleFixes t clocks < 3)%nat ->
  Forall (fun moved => moved = false) (snd (fixes clocks (onStart t st))).
Proof.
  intros Hcount Hfew. apply fixes_after_interaction;
    cbn [onStart updateCount userInteracted lastInteractionTime idleUpdates];
    [assumption|reflexivity|lia|lia].
Qed.

(** Witness of X23: an interaction at 100 s after two fixes, then fixes
    every 5 seconds up to 125 s. *)
Lemma camera_still_after_interaction_witness :
  Forall (fun moved => moved = false)
    (snd (fixes [105000; 110000; 115000; 120000; 125000]
            (onStart 100000
               {| updateCount := 2; userInteracted := false;
                  lastInteractionTime := 0; idleUpdates := 0 |}))).
Proof.
  apply (camera_still_after_interaction 100000
           {| updateCount := 2; userInteracted := false;
              lastInteractionTime := 0; idleUpdates := 0 |}
           [105000; 110000; 115000; 120000; 125000]).
  - cbn. lia.
  - cbn. lia.
Defined.

End CameraFacts.

Module PredictionFacts.
Import Stdlib.Strings.String.
Import Prediction.

Section WithSatelliteJs.

Variable satrec : Type.
Variable twoline2satrec : string -> string -> satrec.

Local Abbreviation State := (State satrec).
Local Abbreviation TleData := (TleData satrec).
Local Abbreviation initPassPrediction := (initPassPrediction satrec twoline2satrec).
Local Abbreviation runs := (runs satrec twoline2satrec).

(** One run keeps an element set that is already there, and does not ask
    for another. *)
Lemma initPassPrediction_keeps_tle container statusEl lines answer
      (st : State) (tle : TleData) :
  tleData satrec st = Some tle ->
  tleData satrec (fst (fst (initPassPrediction container statusEl lines answer st)))
  = Some tle
  /\ askedTle (snd (initPassPrediction container statusEl lines answer st)) = false.
Proof.
  intros Htle. unfold Prediction.initPassPrediction.
  destruct container; [|split; [first [exact Htle|reflexivity]|reflexivity]].
  destruct statusEl; [|split; [first [exact Htle|reflexivity]|reflexivity]].
  cbn [negb]. rewrite Htle. cbn [negb].
  destruct (userLocation satrec st) as [loc|] eqn:Hloc.
  - rewrite Htle, Hloc. split; [first [exact Htle|reflexivity]|reflexivity].
  - destruct answer as [c|]; cbn [requestLocation fst tleData userLocation].
    + rewrite Htle. split; [first [exact Htle|reflexivity]|reflexivity].
    + rewrite Htle, Hloc. split; [first [exact Htle|reflexivity]|reflexivity].
Qed.

(** X24: an element set, once fetched, is never fetched again: whatever
    the later runs of [initPassPrediction] and the answers of the services,
    the stored element set stays the same and no run asks the service for
    another. *)
Theorem element_set_fetched_once (rs : list (Run)) (st : State) (tle : TleData) :
  tleData satrec st = Some tle ->
  tleData satrec (fst (runs rs st)) = Some tle
  /\ Forall (fun entry => askedTle (snd entry) = false) (snd (runs rs st)).
Proof.
  revert st. induction rs as [|r rs IH]; intros st Htle;
    [split; [exact Htle|constructor]|].
  cbn [Prediction.runs].
  destruct (initPassPrediction_keeps_tle (runContainer r) (runStatusEl r)
              (runLines r) (runAnswer r) st tle Htle) as [Hkept Hasked].
  destruct (initPassPrediction (runContainer r) (runStatusEl r)
              (runLines r) (runAnswer r) st) as [[st1 shown] asked].
  cbn [fst snd] in Hkept, Hasked.
  destruct (IH st1 Hkept) as [Hfinal Hlog].
  destruct (runs rs st1) as [st2 log]. cbn [fst snd] in *.
  split; [exact Hfinal|]. constructor; [exact Hasked|exact Hlog].
Qed.

(** X25: with an element set and a location stored, every run that finds
    its two elements computes the passes from exactly those, asks nothing
    of the services and leaves the state as it is: a location that has
    changed is not seen. *)
Theorem prediction_uses_stored_answers container statusEl lines answer
        (st : State) (tle : TleData) (loc : UserLocation) :
  tleData satrec st = Some tle -> userLocation satrec st = Some loc ->
  container = true -> statusEl = true ->
  initPassPrediction container statusEl lines answer st
  = (st, Computed satrec tle loc, {| askedTle := false; askedLocation := false |}).
Proof.
  intros Htle Hloc -> ->. unfold Prediction.initPassPrediction.
  cbn [negb]. rewrite Htle. cbn [negb]. rewrite Hloc, Htle, Hloc. reflexivity.
Qed.

(** X26: the location is asked for only with an element set in hand: a
    run that asks for the location ends with an element set stored, and a
    run that fails to fetch the element set changes nothing and does not
    ask for the location. *)
Theorem location_asked_after_element_set container statusEl lines answer
        (st : State) :
  (askedLocation (snd (initPassPrediction container statusEl lines answer st)) = true ->
   tleData satrec (fst (fst (initPassPrediction container statusEl lines answer st)))
   <> None)
  /\ (snd (fst (initPassPrediction container statusEl lines answer st))
      = FetchFailed satrec ->
      fst (fst (initPassPrediction container statusEl lines answer st)) = st
      /\ askedLocation (snd (initPassPrediction container statusEl lines answer st))
         = false).
Proof.
  unfold Prediction.initPassPrediction.
  destruct container; [|split; [discriminate|discriminate]].
  destruct statusEl; [|split; [discriminate|discriminate]].
  cbn [negb].
  assert (Hafter : forall (st1 : State) askedT tle,
    tleData satrec st1 = Some tle ->
    let out :=
      (let '(st2, askedL) :=
         match userLocation satrec st1 with
         | None => (fst (requestLocation satrec answer st1), true)
         | Some _ => (st1, false)
         end in
       match tleData satrec st2, userLocation satrec st2 with
       | Some tle, Some loc =>
           (st2, Computed satrec tle loc,
            {| askedTle := askedT; askedLocation := askedL |})
       | _, _ =>
           (st2, LocationDenied satrec,
            {| askedTle := askedT; askedLocation := askedL |})
       end) in
    tleData satrec (fst (fst out)) <> None
    /\ snd (fst out) <> FetchFailed satrec).
  { intros st1 askedT tle Htle.
    destruct (userLocation satrec st1) as [loc|] eqn:Hloc; cbv zeta;
      [|destruct answer as [c|]];
      repeat (rewrite ?Htle, ?Hloc;
              cbn [requestLocation fst snd tleData userLocation]);
      split; discriminate. }
  destruct (tleData satrec st) as [tle|] eqn:Htle.
  - cbn [negb]. destruct (Hafter st false tle Htle) as [Hset Hshown].
    split; [intros _; exact Hset|intros Hfailed; contradiction].
  - destruct lines as [[|l0 [|l1 [|l2 ls]]]|]; cbn [fetchTLE negb];
      try (split; [discriminate|intros _; split; reflexivity]);
      match goal with
      | |- context [Some {| tleSatrec := ?s; tleName := ?n |}] =>
          destruct (Hafter {| tleData := Some {| tleSatrec := s; tleName := n |};
                              userLocation := userLocation satrec st |}
                           true {| tleSatrec := s; tleName := n |} eq_refl)
            as [Hset Hshown]
      end;
      (split; [intros _; exact Hset|intros Hfailed; contradiction]).
Qed.

End WithSatelliteJs.

(** Witness of X24: an element set stored, then a run whose service
    answers with another one. *)
Lemma element_set_fetched_once_witness :
  tleData unit
    (fst (runs unit (fun _ _ => tt)
            [{| runContainer := true; runStatusEl := true;
                runLines := Some ["ISS"%string; "1 25544U"%string; "2 25544"%string];
                runAnswer := None |}]
            {| tleData := Some {| tleSatrec := tt; tleName := "FIRST" |};
               userLocation := None |}))
  = Some {| tleSatrec := tt; tleName := "FIRST" |}
  /\ Forall (fun entry => askedTle (snd entry) = false)
       (snd (runs unit (fun _ _ => tt)
               [{| runContainer := true; runStatusEl := true;
                   runLines := Some ["ISS"%string; "1 25544U"%string; "2 25544"%string];
                   runAnswer := None |}]
               {| tleData := Some {| tleSatrec := tt; tleName := "FIRST" |};
                  userLocation := None |})).
Proof.
  apply (element_set_fetched_once unit (fun _ _ => tt)
           [{| runContainer := true; runStatusEl := true;
               runLines := Some ["ISS"%string; "1 25544U"%string; "2 25544"%string];
               runAnswer := None |}]
           {| tleData := Some {| tleSatrec := tt; tleName := "FIRST" |};
              userLocation := None |}
           {| tleSatrec := tt; tleName := "FIRST" |}).
  reflexivity.
Defined.

(** Witness of X25: a stored location at 52.5 N 13.4 E, and a geolocation
    that would now answer 48.1 N 11.6 E. *)
Lemma prediction_uses_stored_answers_witness :
  initPassPrediction unit (fun _ _ => tt) true true None
    (Some {| coordsLatitude := 481 # 10; coordsLongitude := 116 # 10;
             coordsAltitude := None |})
    {| tleData := Some {| tleSatrec := tt; tleName := "ISS (ZARYA)" |};
       userLocation := Some {| locLat := 525 # 10; locLng := 134 # 10;
                                locAlt := 0 |} |}
  = ({| tleData := Some {| tleSatrec := tt; tleName := "ISS (ZARYA)" |};
        userLocation := Some {| locLat := 525 # 10; locLng := 134 # 10;
                                 locAlt := 0 |} |},
     Computed unit {| tleSatrec := tt; tleName := "ISS (ZARYA)" |}
       {| locLat := 525 # 10; locLng := 134 # 10; locAlt := 0 |},
     {| askedTle := false; askedLocation := false |}).
Proof.
  apply (prediction_uses_stored_answers unit (fun _ _ => tt) true true None
           (Some {| coordsLatitude := 481 # 10; coordsLongitude := 116 # 10;
                    coordsAltitude := None |})
           {| tleData := Some {| tleSatrec := tt; tleName := "ISS (ZARYA)" |};
              userLocation := Some {| locLat := 525 # 10; locLng := 134 # 10;
                                       locAlt := 0 |} |}
           {| tleSatrec := tt; tleName := "ISS (ZARYA)" |}
           {| locLat := 525 # 10; locLng := 134 # 10; locAlt := 0 |});
    reflexivity.
Defined.

End PredictionFacts.
